(** * display-library: the windowed LCD display controller

    A shallow embedding of [DisplayItem.h], [DisplayConfig.h],
    [LCDDisplayController.h] and [LCDInventoryController.h], followed by
    the properties of the fixed-width formatter, the scrolling window and
    the error paths. The earlier controller without scrolling, the console
    input listener, the console renderer and the loop of [main.cpp] are
    embedded as well, with what holds of them.

    Conventions.
    - [size_t] is a 64-bit unsigned integer: a [Z] in [0, 2^64) whose
      additions and subtractions are reduced modulo [2^64] where the
      source performs them.
    - [std::string] is [string]; its [length()] is read back as a [size_t].
    - A member function that touches the controller is a computation in
      the monad [M]: it threads the object, may throw, and records every
      call made to [IRenderer::render].
    - The [static_assert] of the constructor is checked by the compiler
      and has no run-time counterpart; where a property needs the widths
      to be sensible it says so. *)

From Stdlib Require Import ZArith Lia Ascii String.
From stdpp Require Import base list strings.

Local Open Scope Z_scope.

(** ** size_t *)

Module size_t.

Definition modulus : Z := 2 ^ 64.

Definition wrap (z : Z) : Z := z mod modulus.

Definition add (a b : Z) : Z := wrap (a + b).
Definition sub (a b : Z) : Z := wrap (a - b).

Definition in_range (z : Z) : Prop := 0 <= z < modulus.

End size_t.

Infix "+!" := size_t.add (at level 50, left associativity).
Infix "-!" := size_t.sub (at level 50, left associativity).

(** ** std::string *)

Module std_string.

(** [s.length()] *)
Definition size (s : string) : Z := Z.of_nat (String.length s).

(** [std::string(n, c)] *)
Fixpoint replicate_char (n : nat) (c : ascii) : string :=
  match n with
  | O => EmptyString
  | S n' => String c (replicate_char n' c)
  end.

Definition fill (n : Z) (c : ascii) : string := replicate_char (Z.to_nat n) c.

(** [s.substr(0, n)]: the first [n] characters, or all of [s] when it is
    shorter. *)
Fixpoint take (n : nat) (s : string) : string :=
  match n, s with
  | O, _ => EmptyString
  | S _, EmptyString => EmptyString
  | S n', String c s' => String c (take n' s')
  end.

Definition substr0 (s : string) (n : Z) : string := take (Z.to_nat n) s.

(** [line += c] for a single [char] *)
Definition push_back (s : string) (c : ascii) : string :=
  s +:+ String c EmptyString.

(** [s] starts with [p]. *)
Definition starts_with (p s : string) : Prop := exists rest, s = p +:+ rest.

(** Every character of [s] is a space. *)
Fixpoint all_spaces (s : string) : bool :=
  match s with
  | EmptyString => true
  | String c s' => Ascii.eqb c " " && all_spaces s'
  end.

End std_string.

(** ** Stream insertion of integers: [oss << n]

    The standard library prints an [int] or [unsigned int] in decimal, most
    significant digit first, with a leading minus sign for a negative
    value and no leading zeros. *)

Module ostream.

Definition digit_char (d : Z) : ascii := ascii_of_nat (48 + Z.to_nat d).

(** Digits of a non-negative number, prepended to [acc]. Twenty rounds
    cover every 64-bit value. *)
Fixpoint put_digits (fuel : nat) (n : Z) (acc : string) : string :=
  match fuel with
  | O => acc
  | S fuel' =>
      let acc' := String (digit_char (n mod 10)) acc in
      if n / 10 =? 0 then acc' else put_digits fuel' (n / 10) acc'
  end.

Definition put_unsigned (n : Z) : string := put_digits 20 n EmptyString.

Definition put_signed (n : Z) : string :=
  if n <? 0 then String "-" (put_unsigned (- n)) else put_unsigned n.

End ostream.

(** ** The value types the repository instantiates the templates with *)

Record uint8_t := U8 { u8 : Z }.
Record int8_t := I8 { i8 : Z }.
Record int := Int { int_val : Z }.

Definition uint8_ok (v : uint8_t) : Prop := 0 <= u8 v < 256.
Definition int8_ok (v : int8_t) : Prop := -128 <= i8 v < 128.

(** Integral conversions. *)
Definition uint8_to_unsigned (v : uint8_t) : Z := u8 v.
Definition int8_to_int (v : int8_t) : int := Int (i8 v).
Definition uint8_to_int (v : uint8_t) : int := Int (u8 v).
Definition int_to_uint8 (n : int) : uint8_t := U8 (int_val n mod 256).

(** [int] addition and subtraction. The result is reduced to 32 bits in
    two's complement; the operands met here are promoted 8-bit values, far
    from the bounds where the language leaves the result undefined. *)
Definition int_norm (z : Z) : Z := (z + 2 ^ 31) mod 2 ^ 32 - 2 ^ 31.
Definition int_add (a b : int) : int := Int (int_norm (int_val a + int_val b)).
Definition int_sub (a b : int) : int := Int (int_norm (int_val a - int_val b)).

(** ** DisplayItem.h *)

(** [toString]: the generic template streams its argument; the two
    overloads for [uint8_t] and [int8_t] cast to a wider integer first.
    An instance is chosen by the type of the argument, as the overload is. *)
Class Streamable (T : Type) := toString : T -> string.

#[export] Instance toString_string : Streamable string := fun data => data.
#[export] Instance toString_char : Streamable ascii :=
  fun data => String data EmptyString.
#[export] Instance toString_int : Streamable int :=
  fun data => ostream.put_signed (int_val data).

(** [oss << static_cast<unsigned int>(data)] *)
#[export] Instance toString_uint8_t : Streamable uint8_t :=
  fun data => ostream.put_unsigned (uint8_to_unsigned data).

(** [oss << static_cast<int>(data)] *)
#[export] Instance toString_int8_t : Streamable int8_t :=
  fun data => ostream.put_signed (int_val (int8_to_int data)).

Definition formatToWidth (text : string) (width : Z) : string :=
  if std_string.size text <? width then
    text +:+ std_string.fill (width -! std_string.size text) " "
  else if std_string.size text >? width then
    std_string.substr0 text width
  else text.

(** The widths are template parameters of the item type. *)
Record DisplayItem (TKey TValue : Type) (KeyWidth ValueWidth : Z) :=
  MkDisplayItem { key : TKey; value : TValue }.

Arguments MkDisplayItem {TKey TValue} KeyWidth ValueWidth key value.
Arguments key {TKey TValue KeyWidth ValueWidth} _.
Arguments value {TKey TValue KeyWidth ValueWidth} _.

Section DisplayItem.

Context {TKey TValue : Type} `{!Streamable TKey, !Streamable TValue}.
Context {KeyWidth ValueWidth : Z}.

Local Abbreviation Item := (DisplayItem TKey TValue KeyWidth ValueWidth).

Definition setKey (newKey : TKey) (item : Item) : Item :=
  MkDisplayItem KeyWidth ValueWidth newKey (value item).

Definition setValue (newValue : TValue) (item : Item) : Item :=
  MkDisplayItem KeyWidth ValueWidth (key item) newValue.

Definition getKey (item : Item) : TKey := key item.
Definition getValue (item : Item) : TValue := value item.

Definition getFormattedKey (item : Item) : string :=
  formatToWidth (toString (key item)) KeyWidth.

Definition getFormattedValue (item : Item) : string :=
  formatToWidth (toString (value item)) ValueWidth.

Definition getKeyWidth : Z := KeyWidth.
Definition getValueWidth : Z := ValueWidth.
Definition getTotalWidth : Z := KeyWidth +! ValueWidth.

End DisplayItem.

Definition InventoryDisplayItem := DisplayItem string uint8_t 11 3.

(** ** DisplayConfig.h *)

Record DisplayConfig := MkDisplayConfig {
  rows : Z;
  columns : Z;
  navigatorChar : ascii;
  separatorChar : ascii
}.

(** The default arguments of the [DisplayConfig] constructor. *)
Definition DisplayConfig_default : DisplayConfig := MkDisplayConfig 2 16 ">" ":".

(** ** IRenderer.h

    The controller only ever calls [render(lines, columns)] on its sink; a
    call is recorded as a [RenderCall]. The sink is held through a
    [shared_ptr], which may be null. *)

Inductive shared_ptr_IRenderer := nullptr | renderer_at (address : positive).

(** [!p] *)
Definition is_null (p : shared_ptr_IRenderer) : bool :=
  match p with nullptr => true | renderer_at _ => false end.

Record RenderCall := MkRenderCall {
  rendered_lines : list string;
  rendered_columns : Z
}.

(** ** Exceptions and the monad of member functions *)

Inductive exception :=
| invalid_argument (what : string)
| out_of_range (what : string).

(** A computation stops early either by throwing, or by running into
    undefined behaviour (dereferencing a null sink, indexing a vector out
    of bounds). *)
Inductive abort := Throw (e : exception) | Undefined.

Definition M (S A : Type) : Type := S -> (abort + A) * S * list RenderCall.

Definition ret {S A} (a : A) : M S A := fun s => (inr a, s, []).

Definition bind {S A B} (m : M S A) (k : A -> M S B) : M S B :=
  fun s =>
    match m s with
    | (inl e, s', out) => (inl e, s', out)
    | (inr a, s', out) =>
        match k a s' with (r, s'', out') => (r, s'', out ++ out') end
    end.

Definition throw {S A} (e : exception) : M S A := fun s => (inl (Throw e), s, []).
Definition undefined {S A} : M S A := fun s => (inl Undefined, s, []).
Definition get {S} : M S S := fun s => (inr s, s, []).
Definition modify {S} (f : S -> S) : M S unit := fun s => (inr tt, f s, []).
Definition emit {S} (call : RenderCall) : M S unit := fun s => (inr tt, s, [call]).

Notation "x <- m ;; k" := (bind m (fun x => k))
  (at level 100, m at next level, right associativity).
Notation "m ;; k" := (bind m (fun _ => k))
  (at level 100, right associativity).

Definition result {S A} (o : (abort + A) * S * list RenderCall) : abort + A := o.1.1.
Definition state {S A} (o : (abort + A) * S * list RenderCall) : S := o.1.2.
Definition pushed {S A} (o : (abort + A) * S * list RenderCall) : list RenderCall := o.2.

(** The exception [validateItemIndex] throws. *)
Definition index_error : abort := Throw (out_of_range "Item index out of range").

(** [renderer->render(lines, columns)] *)
Definition IRenderer_render {S} (renderer : shared_ptr_IRenderer)
    (lines : list string) (columns : Z) : M S unit :=
  match renderer with
  | nullptr => undefined
  | renderer_at _ => emit (MkRenderCall lines columns)
  end.

(** Implicit conversion of the argument of [setCurrentValue] to the value
    type of the item, done where [setValue] binds its parameter. *)
Class Convertible (A B : Type) := convert : A -> B.

#[export] Instance convert_refl (A : Type) : Convertible A A | 10 := fun a => a.
#[export] Instance convert_int_uint8_t : Convertible int uint8_t := int_to_uint8.

(** ** LCDDisplayController.h *)

Section LCDDisplayController.

Context {TKey TValue : Type} `{!Streamable TKey, !Streamable TValue}.
Context {KeyWidth ValueWidth : Z}.

Local Abbreviation TDisplayItem := (DisplayItem TKey TValue KeyWidth ValueWidth).

Record LCDDisplayController := MkLCDDisplayController {
  config : DisplayConfig;
  items : list TDisplayItem;
  renderer : shared_ptr_IRenderer;
  selectedItemIndex : Z;
  windowStartIndex : Z;
  isSelected : bool
}.

Local Abbreviation Ctl := (M LCDDisplayController).

Definition set_selectedItemIndex (i : Z) (this : LCDDisplayController) :=
  MkLCDDisplayController (config this) (items this) (renderer this)
    i (windowStartIndex this) (isSelected this).

Definition set_windowStartIndex (i : Z) (this : LCDDisplayController) :=
  MkLCDDisplayController (config this) (items this) (renderer this)
    (selectedItemIndex this) i (isSelected this).

Definition set_isSelected (b : bool) (this : LCDDisplayController) :=
  MkLCDDisplayController (config this) (items this) (renderer this)
    (selectedItemIndex this) (windowStartIndex this) b.

Definition set_items (l : list TDisplayItem) (this : LCDDisplayController) :=
  MkLCDDisplayController (config this) l (renderer this)
    (selectedItemIndex this) (windowStartIndex this) (isSelected this).

(** [items.size()] *)
Definition items_size (this : LCDDisplayController) : Z :=
  Z.of_nat (length (items this)).

Definition getNavigatorRowInWindow (this : LCDDisplayController) : Z :=
  selectedItemIndex this -! windowStartIndex this.

(** [items[itemIndex]] is only read under the guard [itemIndex < size];
    the [None] branch is never taken. *)
Definition formatRow (this : LCDDisplayController) (rowIndex : Z) : string :=
  let itemIndex := windowStartIndex this +! rowIndex in
  let line :=
    std_string.push_back EmptyString
      (if rowIndex =? getNavigatorRowInWindow this
       then navigatorChar (config this) else " "%char) in
  let line :=
    if itemIndex <? items_size this then
      match items this !! Z.to_nat itemIndex with
      | Some item =>
          std_string.push_back (line +:+ getFormattedKey item)
            (separatorChar (config this)) +:+ getFormattedValue item
      | None => line
      end
    else
      let remainingSpace :=
        if columns (config this) >? 1 then columns (config this) -! 1 else 0 in
      line +:+ std_string.fill remainingSpace " " in
  if std_string.size line <? columns (config this) then
    line +:+ std_string.fill (columns (config this) -! std_string.size line) " "
  else if std_string.size line >? columns (config this) then
    std_string.substr0 line (columns (config this))
  else line.

Definition validateItemIndex (itemIndex : Z) : Ctl unit :=
  this <- get ;;
  if itemIndex >=? items_size this
  then throw (out_of_range "Item index out of range")
  else ret tt.

Definition adjustWindow : Ctl unit :=
  this <- get ;;
  if bool_decide (items this = []) then modify (set_windowStartIndex 0)
  else if selectedItemIndex this <? windowStartIndex this then
    modify (set_windowStartIndex (selectedItemIndex this))
  else if selectedItemIndex this >=? windowStartIndex this +! rows (config this) then
    modify (set_windowStartIndex (selectedItemIndex this -! rows (config this) +! 1))
  else ret tt.

(** The lines of a frame: [formatRow(i)] for [i = 0 .. rows-1], in order. *)
Definition frame_lines (this : LCDDisplayController) : list string :=
  map (fun i => formatRow this (Z.of_nat i)) (seq 0 (Z.to_nat (rows (config this)))).

Definition render : Ctl unit :=
  this <- get ;;
  IRenderer_render (renderer this) (frame_lines this) (columns (config this)).

Definition navigateUp : Ctl bool :=
  this <- get ;;
  if selectedItemIndex this >? 0 then
    modify (fun this => set_selectedItemIndex (selectedItemIndex this -! 1) this) ;;
    adjustWindow ;;
    render ;;
    ret true
  else ret false.

Definition navigateDown : Ctl bool :=
  this <- get ;;
  if negb (bool_decide (items this = []))
     && (selectedItemIndex this <? items_size this -! 1) then
    modify (fun this => set_selectedItemIndex (selectedItemIndex this +! 1) this) ;;
    adjustWindow ;;
    render ;;
    ret true
  else ret false.

Definition selectItem : Ctl bool :=
  this <- get ;;
  if negb (isSelected this) then
    modify (set_isSelected true) ;; render ;; ret true
  else ret false.

Definition deselectItem : Ctl bool :=
  this <- get ;;
  if isSelected this then
    modify (set_isSelected false) ;; render ;; ret true
  else ret false.

Definition setCurrentValue {T : Type} `{!Convertible T TValue} (newValue : T)
    : Ctl unit :=
  this <- get ;;
  validateItemIndex (selectedItemIndex this) ;;
  modify (fun this =>
    set_items (alter (setValue (convert newValue))
                 (Z.to_nat (selectedItemIndex this)) (items this)) this) ;;
  render.

Definition getCurrentValue : Ctl TValue :=
  this <- get ;;
  validateItemIndex (selectedItemIndex this) ;;
  match items this !! Z.to_nat (selectedItemIndex this) with
  | Some item => ret (getValue item)
  | None => undefined
  end.

Definition getCurrentKey : Ctl TKey :=
  this <- get ;;
  validateItemIndex (selectedItemIndex this) ;;
  match items this !! Z.to_nat (selectedItemIndex this) with
  | Some item => ret (getKey item)
  | None => undefined
  end.

Definition getSelectedItemIndex (this : LCDDisplayController) : Z :=
  selectedItemIndex this.
Definition getWindowStartIndex (this : LCDDisplayController) : Z :=
  windowStartIndex this.
Definition getNavigatorRow (this : LCDDisplayController) : Z :=
  getNavigatorRowInWindow this.
Definition getItemCount (this : LCDDisplayController) : Z := items_size this.
Definition canScroll (this : LCDDisplayController) : bool :=
  items_size this >? rows (config this).
Definition getIsSelected (this : LCDDisplayController) : bool := isSelected this.

(** *** The constructor *)

Definition requiredWidth : Z :=
  1 +! (getKeyWidth (KeyWidth := KeyWidth)) +! 1
    +! (getValueWidth (ValueWidth := ValueWidth)).

Definition to_string (n : Z) : string := ostream.put_unsigned n.

Definition columns_too_small (cols : Z) : string :=
  "DisplayConfig columns (" +:+ to_string cols +:+
  ") is too small for DisplayItem width requirements (" +:+
  to_string requiredWidth +:+ " = 1 navigator + " +:+
  to_string KeyWidth +:+ " key + 1 separator + " +:+
  to_string ValueWidth +:+ " value)".

(** The body of the constructor, run on the object built by the member
    initialisers. *)
Definition constructor_body (renderer_arg : shared_ptr_IRenderer)
    (config_arg : DisplayConfig) : Ctl unit :=
  if is_null renderer_arg then
    throw (invalid_argument "Renderer cannot be null")
  else if columns config_arg <? requiredWidth then
    throw (invalid_argument (columns_too_small (columns config_arg)))
  else ret tt.

(** Construction yields the object only when the body completes; what was
    pushed to the sink meanwhile is returned alongside. *)
Definition construct (items_arg : list TDisplayItem)
    (renderer_arg : shared_ptr_IRenderer) (config_arg : DisplayConfig)
    : (abort + LCDDisplayController) * list RenderCall :=
  let this :=
    MkLCDDisplayController config_arg items_arg renderer_arg 0 0 false in
  match constructor_body renderer_arg config_arg this with
  | (inl e, _, out) => (inl e, out)
  | (inr _, this', out) => (inr this', out)
  end.

End LCDDisplayController.

Arguments LCDDisplayController : clear implicits.
Arguments MkLCDDisplayController {TKey TValue KeyWidth ValueWidth}.

(** *** Driving the controller through its public interface *)

Section PublicInterface.

Context {TKey TValue : Type} `{!Streamable TKey, !Streamable TValue}.
Context {KeyWidth ValueWidth : Z}.

Local Abbreviation TDisplayItem := (DisplayItem TKey TValue KeyWidth ValueWidth).
Local Abbreviation Controller := (LCDDisplayController TKey TValue KeyWidth ValueWidth).

(** The two navigation commands. *)
Inductive Move := MoveUp | MoveDown.

Definition navigate (m : Move) : M Controller bool :=
  match m with MoveUp => navigateUp | MoveDown => navigateDown end.

(** The controller after each call of a sequence of navigation commands. *)
Fixpoint trajectory (moves : list Move) (this : Controller) : list Controller :=
  match moves with
  | [] => []
  | m :: moves' =>
      let this' := state (navigate m this) in
      this' :: trajectory moves' this'
  end.

(** Any call a client can make on the controller. *)
Inductive Call :=
| call_render
| call_navigateUp
| call_navigateDown
| call_selectItem
| call_deselectItem
| call_setCurrentValue (newValue : TValue)
| call_getCurrentValue
| call_getCurrentKey.

Definition perform (c : Call) : M Controller unit :=
  match c with
  | call_render => render
  | call_navigateUp => navigateUp ;; ret tt
  | call_navigateDown => navigateDown ;; ret tt
  | call_selectItem => selectItem ;; ret tt
  | call_deselectItem => deselectItem ;; ret tt
  | call_setCurrentValue v => setCurrentValue v
  | call_getCurrentValue => getCurrentValue ;; ret tt
  | call_getCurrentKey => getCurrentKey ;; ret tt
  end.

(** Arguments a caller can pass: [size_t] fields hold 64-bit values and a
    vector's size fits a [size_t]. *)
Definition DisplayConfig_ok (cfg : DisplayConfig) : Prop :=
  size_t.in_range (rows cfg) /\ size_t.in_range (columns cfg).

Definition vector_ok (l : list TDisplayItem) : Prop :=
  Z.of_nat (length l) < size_t.modulus.

(** The states of a controller: freshly constructed, or obtained from
    such a state by a call (a call that throws leaves the object as it
    was when the exception left it). *)
Inductive reachable : Controller -> Prop :=
| reachable_construct items_arg renderer_arg config_arg this :
    DisplayConfig_ok config_arg ->
    vector_ok items_arg ->
    construct items_arg renderer_arg config_arg = (inr this, []) ->
    reachable this
| reachable_call this c :
    reachable this ->
    reachable (state (perform c this)).

(** The window invariant of the navigation state. *)
Definition window_invariant (this : Controller) : Prop :=
  windowStartIndex this <= selectedItemIndex this
    < windowStartIndex this + rows (config this)
  /\ windowStartIndex this + rows (config this)
       <= Z.max (items_size this) (rows (config this)).

End PublicInterface.

(** *** What the public interface maintains *)

Section ControllerSpecification.

Context {TKey TValue : Type} `{!Streamable TKey, !Streamable TValue}.
Context {KeyWidth ValueWidth : Z}.

Local Abbreviation Controller := (LCDDisplayController TKey TValue KeyWidth ValueWidth).
Implicit Type this : Controller.

(** The call [render()] makes on the sink in state [this]. *)
Definition frame this : RenderCall :=
  MkRenderCall (frame_lines this) (columns (config this)).

(** The window start [adjustWindow] settles on. *)
Definition adjusted this : Z :=
  if bool_decide (items this = []) then 0
  else if selectedItemIndex this <? windowStartIndex this then
    selectedItemIndex this
  else if selectedItemIndex this >=? windowStartIndex this +! rows (config this) then
    selectedItemIndex this -! rows (config this) +! 1
  else windowStartIndex this.

(** The controller after the selected record's value was replaced. *)
Definition with_value (v : TValue) this : Controller :=
  set_items
    (alter (setValue v) (Z.to_nat (selectedItemIndex this)) (items this)) this.

(** What holds of every state the public interface can produce. *)
Record sound this : Prop := MkSound {
  sound_rows : size_t.in_range (rows (config this));
  sound_columns : size_t.in_range (columns (config this));
  sound_size : items_size this < size_t.modulus;
  sound_renderer : is_null (renderer this) = false;
  sound_width : requiredWidth (KeyWidth := KeyWidth) (ValueWidth := ValueWidth)
                <= columns (config this);
  sound_window_start : 0 <= windowStartIndex this;
  sound_selected : 0 <= selectedItemIndex this < Z.max (items_size this) 1;
  sound_above : windowStartIndex this <= selectedItemIndex this + 1;
  sound_top : 1 <= rows (config this) ->
              windowStartIndex this <= selectedItemIndex this;
  sound_bottom : selectedItemIndex this
                 < windowStartIndex this + Z.max (rows (config this)) 1;
  sound_end : windowStartIndex this + rows (config this)
              <= Z.max (items_size this) (rows (config this))
}.

(** The part of the state that calls other than navigation leave alone. *)
Definition same_navigation this this' : Prop :=
  config this' = config this
  /\ renderer this' = renderer this
  /\ selectedItemIndex this' = selectedItemIndex this
  /\ windowStartIndex this' = windowStartIndex this
  /\ length (items this') = length (items this).

End ControllerSpecification.

(** ** LCDInventoryController.h *)

(** [currentValue + 1] and [currentValue - 1] are computed in the promoted
    type, and converted back where [setValue] binds its parameter. *)
Class Arithmetic (T : Type) := {
  promoted : Type;
  add_int : T -> int -> promoted;
  sub_int : T -> int -> promoted;
  narrow : Convertible promoted T
}.

#[export] Instance Arithmetic_uint8_t : Arithmetic uint8_t := {|
  promoted := int;
  add_int v n := int_add (uint8_to_int v) n;
  sub_int v n := int_sub (uint8_to_int v) n;
  narrow := int_to_uint8
|}.

Module Inventory.

Section LCDInventoryController.

Context {TKey TValue : Type} `{!Streamable TKey, !Streamable TValue}.
Context `{!Arithmetic TValue}.
Context {KeyWidth ValueWidth : Z}.

Local Abbreviation Controller := (LCDDisplayController TKey TValue KeyWidth ValueWidth).

Record LCDInventoryController := MkLCDInventoryController {
  displayController : Controller
}.

(** Run a member function of the wrapped display controller. *)
Definition on_displayController {A} (m : M Controller A)
    : M LCDInventoryController A :=
  fun this =>
    match m (displayController this) with
    | (r, c, out) => (r, MkLCDInventoryController c, out)
    end.

Definition construct (items_arg : list (DisplayItem TKey TValue KeyWidth ValueWidth))
    (renderer_arg : shared_ptr_IRenderer) (config_arg : DisplayConfig)
    : (abort + LCDInventoryController) * list RenderCall :=
  match construct items_arg renderer_arg config_arg with
  | (inl e, out) => (inl e, out)
  | (inr c, out) => (inr (MkLCDInventoryController c), out)
  end.

Definition navigateUp : M LCDInventoryController unit :=
  on_displayController navigateUp ;; ret tt.

Definition navigateDown : M LCDInventoryController unit :=
  on_displayController navigateDown ;; ret tt.

Definition selectItem : M LCDInventoryController unit :=
  on_displayController selectItem ;; ret tt.

Definition deselectItem : M LCDInventoryController unit :=
  on_displayController deselectItem ;; ret tt.

Definition incrementValue : M LCDInventoryController unit :=
  currentValue <- on_displayController getCurrentValue ;;
  on_displayController
    (setCurrentValue (Convertible0 := narrow) (add_int currentValue (Int 1))).

Definition decrementValue : M LCDInventoryController unit :=
  currentValue <- on_displayController getCurrentValue ;;
  on_displayController
    (setCurrentValue (Convertible0 := narrow) (sub_int currentValue (Int 1))).

Definition render : M LCDInventoryController unit :=
  on_displayController render.

Definition getDisplayController (this : LCDInventoryController) : Controller :=
  displayController this.

End LCDInventoryController.

End Inventory.

(** ** Fixtures of the test suite *)

(** [DisplayItem<std::string, int, 10, 4>] *)
Definition TestDisplayItem := DisplayItem string int 10 4.

(** [createItems(count)] of ScrollingTests.cpp: ["Item" + to_string(i)]
    with value [i]. *)
Definition createItems (count : nat) : list TestDisplayItem :=
  map (fun i => MkDisplayItem 10 4
                  ("Item" +:+ ostream.put_signed (Z.of_nat i))
                  (Int (Z.of_nat i)))
      (seq 0 count).

Definition mockRenderer : shared_ptr_IRenderer := renderer_at 1.

(** [DisplayConfig(2, 16, '>', ':')] *)
Definition test_config : DisplayConfig := MkDisplayConfig 2 16 ">" ":".

Definition test_controller (count : nat)
    : LCDDisplayController string int 10 4 :=
  MkLCDDisplayController test_config (createItems count) mockRenderer 0 0 false.

(** A display with no rows at all: [DisplayConfig(0, 16, '>', ':')]. *)
Definition zero_rows_config : DisplayConfig := MkDisplayConfig 0 16 ">" ":".

Definition zero_rows_controller : LCDDisplayController string int 10 4 :=
  MkLCDDisplayController zero_rows_config (createItems 2) mockRenderer 0 0 false.

(** [DisplayConfig(2, 10, '>', ':')]: too narrow for 1 + 10 + 1 + 4. *)
Definition smallConfig : DisplayConfig := MkDisplayConfig 2 10 ">" ":".

(** The three frames pushed while walking from record 0 to record 3 of a
    five-record store on a two-row display. *)
Definition scenario1_frames : list RenderCall :=
  [ MkRenderCall [" Item0     :0   "; ">Item1     :1   "] 16;
    MkRenderCall [" Item1     :1   "; ">Item2     :2   "] 16;
    MkRenderCall [" Item2     :2   "; ">Item3     :3   "] 16 ].

(** The item of DisplayItemTests.cpp: [DisplayItem<std::string, int, 8, 4>]. *)
Definition hi_item : DisplayItem string int 8 4 := MkDisplayItem 8 4 "Hi" (Int 5).
Definition long_item : DisplayItem string int 8 4 :=
  MkDisplayItem 8 4 "VeryLongKeyName" (Int 1234567).

(** The inventory of two records, the first at the top of the value
    range and the second at the bottom. *)
Definition inventory_items : list InventoryDisplayItem :=
  [ MkDisplayItem 11 3 "Sword" (U8 255); MkDisplayItem 11 3 "Shield" (U8 0) ].

Definition inventory_controller (selected : Z)
    : LCDDisplayController string uint8_t 11 3 :=
  MkLCDDisplayController test_config inventory_items mockRenderer selected 0 false.

(** ** The earlier LCDDisplayController.h, without scrolling

    The header kept at the top of the source tree: the cursor is a row of
    the display, the record on row [r] is the record of index [r], and
    every command renders. *)

Module Legacy.

Section LCDDisplayController.

Context {TKey TValue : Type} `{!Streamable TKey, !Streamable TValue}.
Context {KeyWidth ValueWidth : Z}.

Local Abbreviation TDisplayItem := (DisplayItem TKey TValue KeyWidth ValueWidth).

Record LCDDisplayController := MkLCDDisplayController {
  config : DisplayConfig;
  items : list TDisplayItem;
  renderer : shared_ptr_IRenderer;
  navigatorRow : Z;
  isSelected : bool
}.

Local Abbreviation Ctl := (M LCDDisplayController).

Definition set_navigatorRow (i : Z) (this : LCDDisplayController) :=
  MkLCDDisplayController (config this) (items this) (renderer this)
    i (isSelected this).

Definition set_isSelected (b : bool) (this : LCDDisplayController) :=
  MkLCDDisplayController (config this) (items this) (renderer this)
    (navigatorRow this) b.

Definition set_items (l : list TDisplayItem) (this : LCDDisplayController) :=
  MkLCDDisplayController (config this) l (renderer this)
    (navigatorRow this) (isSelected this).

(** [items.size()] *)
Definition items_size (this : LCDDisplayController) : Z :=
  Z.of_nat (length (items this)).

(** [items[rowIndex]] is only read under the guard [rowIndex < size];
    the [None] branch is never taken. *)
Definition formatRow (this : LCDDisplayController) (rowIndex : Z) : string :=
  let line :=
    std_string.push_back EmptyString
      (if rowIndex =? navigatorRow this
       then navigatorChar (config this) else " "%char) in
  let line :=
    if rowIndex <? items_size this then
      match items this !! Z.to_nat rowIndex with
      | Some item =>
          std_string.push_back (line +:+ getFormattedKey item)
            (separatorChar (config this)) +:+ getFormattedValue item
      | None => line
      end
    else
      let remainingSpace :=
        if columns (config this) >? 1 then columns (config this) -! 1 else 0 in
      line +:+ std_string.fill remainingSpace " " in
  if std_string.size line <? columns (config this) then
    line +:+ std_string.fill (columns (config this) -! std_string.size line) " "
  else if std_string.size line >? columns (config this) then
    std_string.substr0 line (columns (config this))
  else line.

Definition validateRowIndex (rowIndex : Z) : Ctl unit :=
  this <- get ;;
  if rowIndex >=? items_size this
  then throw (out_of_range "Row index out of range")
  else ret tt.

Definition constructor_body (renderer_arg : shared_ptr_IRenderer)
    (config_arg : DisplayConfig) : Ctl unit :=
  if is_null renderer_arg then
    throw (invalid_argument "Renderer cannot be null")
  else if columns config_arg
          <? requiredWidth (KeyWidth := KeyWidth) (ValueWidth := ValueWidth) then
    throw (invalid_argument
             (columns_too_small (KeyWidth := KeyWidth) (ValueWidth := ValueWidth)
                (columns config_arg)))
  else ret tt.

Definition construct (items_arg : list TDisplayItem)
    (renderer_arg : shared_ptr_IRenderer) (config_arg : DisplayConfig)
    : (abort + LCDDisplayController) * list RenderCall :=
  let this := MkLCDDisplayController config_arg items_arg renderer_arg 0 false in
  match constructor_body renderer_arg config_arg this with
  | (inl e, _, out) => (inl e, out)
  | (inr _, this', out) => (inr this', out)
  end.

Definition frame_lines (this : LCDDisplayController) : list string :=
  map (fun i => formatRow this (Z.of_nat i)) (seq 0 (Z.to_nat (rows (config this)))).

Definition render : Ctl unit :=
  this <- get ;;
  IRenderer_render (renderer this) (frame_lines this) (columns (config this)).

Definition navigateUp : Ctl unit :=
  this <- get ;;
  (if navigatorRow this >? 0
   then modify (fun this => set_navigatorRow (navigatorRow this -! 1) this)
   else ret tt) ;;
  render.

Definition navigateDown : Ctl unit :=
  this <- get ;;
  (if (navigatorRow this <? rows (config this) -! 1)
      && (navigatorRow this <? items_size this -! 1)
   then modify (fun this => set_navigatorRow (navigatorRow this +! 1) this)
   else ret tt) ;;
  render.

Definition selectItem : Ctl unit := modify (set_isSelected true) ;; render.

Definition deselectItem : Ctl unit := modify (set_isSelected false) ;; render.

Definition setCurrentValue {T : Type} `{!Convertible T TValue} (newValue : T)
    : Ctl unit :=
  this <- get ;;
  validateRowIndex (navigatorRow this) ;;
  modify (fun this =>
    set_items (alter (setValue (convert newValue))
                 (Z.to_nat (navigatorRow this)) (items this)) this) ;;
  render.

Definition getCurrentValue : Ctl TValue :=
  this <- get ;;
  validateRowIndex (navigatorRow this) ;;
  match items this !! Z.to_nat (navigatorRow this) with
  | Some item => ret (getValue item)
  | None => undefined
  end.

Definition getCurrentKey : Ctl TKey :=
  this <- get ;;
  validateRowIndex (navigatorRow this) ;;
  match items this !! Z.to_nat (navigatorRow this) with
  | Some item => ret (getKey item)
  | None => undefined
  end.

Definition getNavigatorRow (this : LCDDisplayController) : Z := navigatorRow this.
Definition getIsSelected (this : LCDDisplayController) : bool := isSelected this.

(** Any call a client can make, and a sequence of them; a call that
    throws leaves the object as it was when the exception left it. *)
Inductive Call :=
| call_render
| call_navigateUp
| call_navigateDown
| call_selectItem
| call_deselectItem
| call_setCurrentValue (newValue : TValue)
| call_getCurrentValue
| call_getCurrentKey.

Definition perform (c : Call) : Ctl unit :=
  match c with
  | call_render => render
  | call_navigateUp => navigateUp
  | call_navigateDown => navigateDown
  | call_selectItem => selectItem
  | call_deselectItem => deselectItem
  | call_setCurrentValue v => setCurrentValue v
  | call_getCurrentValue => getCurrentValue ;; ret tt
  | call_getCurrentKey => getCurrentKey ;; ret tt
  end.

Fixpoint after (calls : list Call) (this : LCDDisplayController)
    : LCDDisplayController :=
  match calls with
  | [] => this
  | c :: calls' => after calls' (state (perform c this))
  end.

(** [n] calls of navigateDown in a row. *)
Fixpoint navigateDown_times (n : nat) (this : LCDDisplayController)
    : LCDDisplayController :=
  match n with
  | O => this
  | S n' => navigateDown_times n' (state (navigateDown this))
  end.

End LCDDisplayController.

Arguments LCDDisplayController : clear implicits.
Arguments MkLCDDisplayController {TKey TValue KeyWidth ValueWidth}.

End Legacy.

Section LegacySpecification.

Context {TKey TValue : Type} `{!Streamable TKey, !Streamable TValue}.
Context {KeyWidth ValueWidth : Z}.
Implicit Type this : Legacy.LCDDisplayController TKey TValue KeyWidth ValueWidth.

(** What the earlier controller keeps over a non-empty store shown on at
    least one row: the cursor is on a row of the display that holds a
    record. *)
Record legacy_sound this : Prop := MkLegacySound {
  legacy_rows : 1 <= rows (Legacy.config this) < size_t.modulus;
  legacy_size : Legacy.items_size this < size_t.modulus;
  legacy_renderer : is_null (Legacy.renderer this) = false;
  legacy_row : 0 <= Legacy.navigatorRow this < rows (Legacy.config this);
  legacy_record : Legacy.navigatorRow this < Legacy.items_size this
}.

End LegacySpecification.

(** ** IInputListener.h and ConsoleInputListener.cpp *)

Module NavigationCommand.

Inductive t := Up | Down | Select | Deselect | Increment | Decrement | None.

End NavigationCommand.

Definition charToCommand (c : ascii) : NavigationCommand.t :=
  match c with
  | "w" | "W" => NavigationCommand.Up
  | "s" | "S" => NavigationCommand.Down
  | "e" | "E" => NavigationCommand.Select
  | "q" | "Q" => NavigationCommand.Deselect
  | "d" | "D" => NavigationCommand.Increment
  | "a" | "A" => NavigationCommand.Decrement
  | _ => NavigationCommand.None
  end%char.

(** The console keyboard: the key presses not yet read, oldest first.
    [_kbhit()] tells whether one is pending; [_getch()] takes the oldest,
    and waits (here: yields nothing) when there is none. *)
Definition keyboard := list ascii.

Definition _kbhit (kb : keyboard) : bool :=
  match kb with [] => false | _ :: _ => true end.

Definition _getch (kb : keyboard) : option (ascii * keyboard) :=
  match kb with [] => None | c :: kb' => Some (c, kb') end.

Record ConsoleInputListener := MkConsoleInputListener { m_listening : bool }.

Definition ConsoleInputListener_new : ConsoleInputListener :=
  MkConsoleInputListener false.

Definition startListening (this : ConsoleInputListener) : ConsoleInputListener :=
  MkConsoleInputListener true.

Definition stopListening (this : ConsoleInputListener) : ConsoleInputListener :=
  MkConsoleInputListener false.

Definition isListening (this : ConsoleInputListener) : bool := m_listening this.

Definition pollCommand (this : ConsoleInputListener) (kb : keyboard)
    : NavigationCommand.t * keyboard :=
  if negb (m_listening this) then (NavigationCommand.None, kb)
  else if _kbhit kb then
    match _getch kb with
    | Some (c, kb') => (charToCommand c, kb')
    | None => (NavigationCommand.None, kb)
    end
  else (NavigationCommand.None, kb).

(** [None] stands for a call that is still waiting for a key. *)
Definition waitForCommand (this : ConsoleInputListener) (kb : keyboard)
    : option (NavigationCommand.t * keyboard) :=
  if negb (m_listening this) then Some (NavigationCommand.None, kb)
  else
    match _getch kb with
    | Some (c, kb') => Some (charToCommand c, kb')
    | None => None
    end.

(** The ASCII letter keys, folded to lower case. *)
Definition to_lower (c : ascii) : ascii :=
  let n := nat_of_ascii c in
  if (65 <=? n)%nat && (n <=? 90)%nat then ascii_of_nat (n + 32) else c.

(** The keys [charToCommand] gives a meaning to. *)
Definition command_keys : list ascii :=
  ["w"; "s"; "e"; "q"; "d"; "a"]%char.

(** No command at all. *)
Definition is_no_command (command : NavigationCommand.t) : bool :=
  match command with NavigationCommand.None => true | _ => false end.

(** Equality of commands, as a test. *)
Definition same_command (a b : NavigationCommand.t) : bool :=
  match a, b with
  | NavigationCommand.Up, NavigationCommand.Up
  | NavigationCommand.Down, NavigationCommand.Down
  | NavigationCommand.Select, NavigationCommand.Select
  | NavigationCommand.Deselect, NavigationCommand.Deselect
  | NavigationCommand.Increment, NavigationCommand.Increment
  | NavigationCommand.Decrement, NavigationCommand.Decrement
  | NavigationCommand.None, NavigationCommand.None => true
  | _, _ => false
  end.

(** Whether a key, in either case, is one of [command_keys]. *)
Definition is_command_key (c : ascii) : bool :=
  existsb (Ascii.eqb (to_lower c)) command_keys.

(** ** ConsoleRenderer.cpp

    What a call writes to [std::cout], as one text; [std::endl] writes a
    line feed. *)

Definition endl : string := String "010" EmptyString.

Definition ConsoleRenderer_clear : string :=
  String "027" "[2J" +:+ String "027" "[H".

Definition border (columns : Z) : string :=
  "+" +:+ std_string.fill columns "-" +:+ "+".

Fixpoint print_lines (lines : list string) : string :=
  match lines with
  | [] => EmptyString
  | line :: lines' => "|" +:+ line +:+ "|" +:+ endl +:+ print_lines lines'
  end.

Definition ConsoleRenderer_render (lines : list string) (columns : Z) : string :=
  ConsoleRenderer_clear
  +:+ border columns +:+ endl
  +:+ print_lines lines
  +:+ border columns +:+ endl.

(** A text made of the given rows, each ended by a line feed. *)
Fixpoint unlines (rows : list string) : string :=
  match rows with
  | [] => EmptyString
  | r :: rows' => r +:+ endl +:+ unlines rows'
  end.

(** ** main.cpp *)

(** The ten records [main] creates: ["Item1"] to ["Item10"], all at 0. *)
Definition main_items : list InventoryDisplayItem :=
  map (fun i => MkDisplayItem 11 3
                  ("Item" +:+ ostream.put_signed (Z.of_nat i + 1)) (U8 0))
      (seq 0 10).

Definition main_config : DisplayConfig := MkDisplayConfig 2 16 ">" ":".

(** The sink [main] creates with [make_shared<ConsoleRenderer>()]. *)
Definition main_renderer : shared_ptr_IRenderer := renderer_at 1.

(** The controller [main] constructs. *)
Definition main_controller : LCDDisplayController string uint8_t 11 3 :=
  MkLCDDisplayController main_config main_items main_renderer 0 0 false.

(** A result of the display controller, seen from the inventory
    controller that wraps it. *)
Definition wrapped {A}
    (o : (abort + A) * LCDDisplayController string uint8_t 11 3 * list RenderCall)
    : (abort + A)
      * Inventory.LCDInventoryController (TKey := string) (TValue := uint8_t)
          (KeyWidth := 11) (ValueWidth := 3)
      * list RenderCall :=
  match o with (r, c, out) => (r, Inventory.MkLCDInventoryController c, out) end.

(** The [switch] of the main loop. *)
Definition dispatch (command : NavigationCommand.t)
    : M (Inventory.LCDInventoryController (TKey := string) (TValue := uint8_t)
           (KeyWidth := 11) (ValueWidth := 3)) unit :=
  match command with
  | NavigationCommand.Up => Inventory.navigateUp
  | NavigationCommand.Down => Inventory.navigateDown
  | NavigationCommand.Select => Inventory.selectItem
  | NavigationCommand.Deselect => Inventory.deselectItem
  | NavigationCommand.Increment => Inventory.incrementValue
  | NavigationCommand.Decrement => Inventory.decrementValue
  | NavigationCommand.None => ret tt
  end.

(** [rounds] turns of the main loop: wait for a command, dispatch it.
    The loop itself never ends; a run is cut after the given number of
    turns, or where the listener is left waiting for a key that was not
    typed. An exception that escapes a turn ends the run. *)
Fixpoint main_loop (rounds : nat) (inputListener : ConsoleInputListener)
    (kb : keyboard)
    : M (Inventory.LCDInventoryController (TKey := string) (TValue := uint8_t)
           (KeyWidth := 11) (ValueWidth := 3)) unit :=
  match rounds with
  | O => ret tt
  | S rounds' =>
      match waitForCommand inputListener kb with
      | Some (command, kb') =>
          dispatch command ;; main_loop rounds' inputListener kb'
      | None => ret tt
      end
  end.

(** [main] while the typed keys last: construct, start listening, render
    once, loop. *)
Definition main (keys : keyboard) : (abort + unit) * list RenderCall :=
  match Inventory.construct main_items main_renderer main_config with
  | (inl e, out) => (inl e, out)
  | (inr controller, out) =>
      let inputListener := startListening ConsoleInputListener_new in
      match (Inventory.render ;; main_loop (length keys) inputListener keys)
              controller with
      | (r, _, out') => (r, out ++ out')
      end
  end.

(** A frame of [rows] lines, each [columns] characters wide, announced
    with that width. *)
Definition well_shaped (rows columns : Z) (call : RenderCall) : Prop :=
  Z.of_nat (length (rendered_lines call)) = rows
  /\ rendered_columns call = columns
  /\ Forall (fun line => std_string.size line = columns) (rendered_lines call).

(** [n] calls in a row of the same navigation command. *)
Fixpoint navigate_times {TKey TValue : Type}
    `{!Streamable TKey, !Streamable TValue} {KeyWidth ValueWidth : Z}
    (m : Move) (n : nat)
    (this : LCDDisplayController TKey TValue KeyWidth ValueWidth)
    : LCDDisplayController TKey TValue KeyWidth ValueWidth :=
  match n with
  | O => this
  | S n' => navigate_times m n' (state (navigate m this))
  end.

(** The five-record controller after three navigateDown calls. *)
Definition walked_controller : LCDDisplayController string int 10 4 :=
  navigate_times MoveDown 3 (test_controller 5).

(** An inventory controller over no records at all. *)
Definition empty_inventory_controller : LCDDisplayController string uint8_t 11 3 :=
  MkLCDDisplayController test_config [] mockRenderer 0 0 false.

(** The earlier controller as constructed over the five test records. *)
Definition legacy_controller : Legacy.LCDDisplayController string int 10 4 :=
  Legacy.MkLCDDisplayController test_config (createItems 5) mockRenderer 0 false.

(** The earlier controller as constructed over no records. *)
Definition legacy_empty_controller : Legacy.LCDDisplayController string int 10 4 :=
  Legacy.MkLCDDisplayController test_config [] mockRenderer 0 false.

(** ** The numeral a reader expects

    The decimal numeral of a number, told apart from any other text by
    reading it back: digits only, most significant first, no leading zero,
    and a minus sign only in front of a non-zero magnitude. *)

Definition is_digit (c : ascii) : bool :=
  (48 <=? Z.of_nat (nat_of_ascii c)) && (Z.of_nat (nat_of_ascii c) <=? 57).

Fixpoint digits_value (s : string) (acc : Z) : option Z :=
  match s with
  | EmptyString => Some acc
  | String c s' =>
      if is_digit c
      then digits_value s' (10 * acc + (Z.of_nat (nat_of_ascii c) - 48))
      else None
  end.

Definition magnitude_of_numeral (s : string) : option Z :=
  match s with
  | EmptyString => None
  | String c EmptyString => digits_value s 0
  | String c _ => if Ascii.eqb c "0" then None else digits_value s 0
  end.

Definition number_of_numeral (s : string) : option Z :=
  match s with
  | String "-" s' =>
      match magnitude_of_numeral s' with
      | Some n => if n =? 0 then None else Some (- n)
      | None => None
      end
  | _ => magnitude_of_numeral s
  end.

(** The one-character text whose character has code [n] (modulo 256):
    what streaming a [char] would print. *)
Definition char_with_code (n : Z) : string :=
  toString (ascii_of_nat (Z.to_nat (n mod 256))).

(** The check run on each 8-bit value: the text reads back as the number
    and is not the character with that code. *)
Definition prints_numeral_of {T} `{!Streamable T} (mk : Z -> T) (z : Z) : bool :=
  match number_of_numeral (toString (mk z)) with
  | Some n => n =? z
  | None => false
  end
  && negb (String.eqb (toString (mk z)) (char_with_code z)).

(** The check run on each 8-bit value: its numeral has one to three
    characters. *)
Definition fits_in_three {T} `{!Streamable T} (mk : Z -> T) (z : Z) : bool :=
  (1 <=? std_string.size (toString (mk z)))
  && (std_string.size (toString (mk z)) <=? 3).

(** * Properties *)

(** ** size_t arithmetic *)

Lemma wrap_small z : size_t.in_range z -> size_t.wrap z = z.
Proof. intros Hz. apply Z.mod_small. exact Hz. Qed.

Lemma add_small a b : size_t.in_range (a + b) -> a +! b = a + b.
Proof. apply wrap_small. Qed.

Lemma sub_small a b : size_t.in_range (a - b) -> a -! b = a - b.
Proof. apply wrap_small. Qed.

Lemma modulus_value : size_t.modulus = 18446744073709551616.
Proof. reflexivity. Qed.

(** Rewrite the wrapped operations of the goal whose result is seen to be
    in range. *)
Ltac in_range_tac :=
  unfold size_t.in_range; rewrite ?modulus_value in *; lia.

Ltac unwrap :=
  repeat match goal with
  | |- context [?a +! ?b] => rewrite (add_small a b) by in_range_tac
  | |- context [?a -! ?b] => rewrite (sub_small a b) by in_range_tac
  end.

(** ** std::string *)

Lemma size_nonneg s : 0 <= std_string.size s.
Proof. unfold std_string.size. lia. Qed.

Lemma append_nil b : EmptyString +:+ b = b.
Proof. reflexivity. Qed.

Lemma append_cons c a b : String c a +:+ b = String c (a +:+ b).
Proof. reflexivity. Qed.

Lemma size_append a b :
  std_string.size (a +:+ b) = std_string.size a + std_string.size b.
Proof.
  unfold std_string.size.
  induction a as [|c a IH]; [rewrite append_nil | rewrite append_cons];
    cbn [String.length]; lia.
Qed.

Lemma size_String c s : std_string.size (String c s) = 1 + std_string.size s.
Proof. unfold std_string.size. simpl. lia. Qed.

Lemma length_replicate_char n c :
  String.length (std_string.replicate_char n c) = n.
Proof. induction n; simpl; congruence. Qed.

Lemma size_fill n c : std_string.size (std_string.fill n c) = Z.max 0 n.
Proof.
  unfold std_string.size, std_string.fill.
  rewrite length_replicate_char. lia.
Qed.

Lemma length_take n s :
  String.length (std_string.take n s) = Nat.min n (String.length s).
Proof.
  revert s. induction n as [|n IH]; intros [|c s]; simpl; auto.
Qed.

Lemma size_substr0 s n :
  0 <= n <= std_string.size s -> std_string.size (std_string.substr0 s n) = n.
Proof.
  unfold std_string.size, std_string.substr0. intros Hn.
  rewrite length_take. lia.
Qed.

Lemma take_starts n s : std_string.starts_with (std_string.take n s) s.
Proof.
  revert s. induction n as [|n IH]; intros s.
  - exists s. destruct s; reflexivity.
  - destruct s as [|c s].
    + exists EmptyString. reflexivity.
    + destruct (IH s) as [rest Hrest]. exists rest.
      cbn [std_string.take]. rewrite append_cons. congruence.
Qed.

Lemma all_spaces_replicate n : std_string.all_spaces (std_string.replicate_char n " ") = true.
Proof. induction n; simpl; auto. Qed.

Lemma all_spaces_fill n : std_string.all_spaces (std_string.fill n " ") = true.
Proof. apply all_spaces_replicate. Qed.

(** ** formatToWidth *)

Lemma formatToWidth_short text width :
  size_t.in_range width ->
  std_string.size text < width ->
  formatToWidth text width
  = text +:+ std_string.fill (width - std_string.size text) " ".
Proof.
  intros Hw Hlt. unfold formatToWidth.
  destruct (Z.ltb_spec (std_string.size text) width); [|lia].
  pose proof (size_nonneg text).
  unfold size_t.in_range in Hw. rewrite modulus_value in Hw.
  unwrap. reflexivity.
Qed.

Lemma formatToWidth_exact text width :
  std_string.size text = width -> formatToWidth text width = text.
Proof.
  intros He. unfold formatToWidth.
  destruct (Z.ltb_spec (std_string.size text) width); [lia|].
  destruct (Z.gtb_spec (std_string.size text) width); [lia|]. reflexivity.
Qed.

Lemma formatToWidth_long text width :
  width < std_string.size text ->
  formatToWidth text width = std_string.substr0 text width.
Proof.
  intros Hgt. unfold formatToWidth.
  destruct (Z.ltb_spec (std_string.size text) width); [lia|].
  destruct (Z.gtb_spec (std_string.size text) width); [|lia]. reflexivity.
Qed.

Lemma size_formatToWidth text width :
  size_t.in_range width -> std_string.size (formatToWidth text width) = width.
Proof.
  intros Hw. pose proof (size_nonneg text) as Hs.
  destruct (Z.lt_trichotomy (std_string.size text) width) as [Hlt|[He|Hgt]].
  - rewrite formatToWidth_short by assumption.
    rewrite size_append, size_fill. lia.
  - rewrite formatToWidth_exact by assumption. exact He.
  - rewrite formatToWidth_long by assumption.
    apply size_substr0. unfold size_t.in_range in Hw. lia.
Qed.

Lemma formatToWidth_fits text width :
  size_t.in_range width ->
  std_string.size text <= width ->
  std_string.size (formatToWidth text width) = width
  /\ std_string.starts_with text (formatToWidth text width).
Proof.
  intros Hw Hle. split; [apply size_formatToWidth; exact Hw|].
  destruct (Z.eq_dec (std_string.size text) width) as [He|Hne].
  - rewrite formatToWidth_exact by exact He.
    exists EmptyString. clear. induction text as [|c t IH].
    + reflexivity.
    + rewrite append_cons, <- IH. reflexivity.
  - rewrite formatToWidth_short by (assumption || lia). eexists. reflexivity.
Qed.

Lemma formatToWidth_truncates text width :
  size_t.in_range width ->
  width < std_string.size text ->
  std_string.size (formatToWidth text width) = width
  /\ std_string.starts_with (formatToWidth text width) text
  /\ formatToWidth text width = std_string.substr0 text width.
Proof.
  intros Hw Hlt. split; [apply size_formatToWidth; exact Hw|].
  rewrite formatToWidth_long by exact Hlt. split; [|reflexivity].
  apply take_starts.
Qed.

Example GetFormattedKeyPadsShortKeys : getFormattedKey hi_item = "Hi      ".
Proof. reflexivity. Qed.

Example GetFormattedKeyTruncatesLongKeys : getFormattedKey long_item = "VeryLong".
Proof. reflexivity. Qed.

Example GetFormattedValuePadsShortValues : getFormattedValue hi_item = "5   ".
Proof. reflexivity. Qed.

Example WorksWithUint8Values :
  getFormattedValue (MkDisplayItem 11 3 "Sword" (U8 99) : InventoryDisplayItem) = "99 ".
Proof. reflexivity. Qed.

Section Formatting.

Context {TKey TValue : Type} `{!Streamable TKey, !Streamable TValue}.
Context {KeyWidth ValueWidth : Z}.
Implicit Type item : DisplayItem TKey TValue KeyWidth ValueWidth.

(** C5. When the rendered text of a key or a value is no longer than the
    configured width, the formatted output has exactly that width and
    starts with the rendered text; when it is longer, the output is the
    first [width] characters of the text: it has that length and the text
    starts with it (it is [substr(0, width)]). *)
Theorem formatted_roundtrip item :
  size_t.in_range KeyWidth ->
  size_t.in_range ValueWidth ->
  (std_string.size (toString (key item)) <= KeyWidth ->
     std_string.size (getFormattedKey item) = KeyWidth
     /\ std_string.starts_with (toString (key item)) (getFormattedKey item))
  /\ (KeyWidth < std_string.size (toString (key item)) ->
     std_string.size (getFormattedKey item) = KeyWidth
     /\ std_string.starts_with (getFormattedKey item) (toString (key item))
     /\ getFormattedKey item = std_string.substr0 (toString (key item)) KeyWidth)
  /\ (std_string.size (toString (value item)) <= ValueWidth ->
     std_string.size (getFormattedValue item) = ValueWidth
     /\ std_string.starts_with (toString (value item)) (getFormattedValue item))
  /\ (ValueWidth < std_string.size (toString (value item)) ->
     std_string.size (getFormattedValue item) = ValueWidth
     /\ std_string.starts_with (getFormattedValue item) (toString (value item))
     /\ getFormattedValue item
        = std_string.substr0 (toString (value item)) ValueWidth).
Proof.
  intros Hk Hv. unfold getFormattedKey, getFormattedValue.
  repeat split; intros; first
    [ now apply formatToWidth_fits
    | now apply formatToWidth_truncates ].
Qed.

(** C2, as the code has it. When the rendered text of a key or a value is
    shorter than the configured width, the formatted output is the text
    followed by the padding spaces, up to exactly that width: the text is
    left-aligned and the spaces come after it. *)
Theorem formatted_short_is_padded_after item :
  size_t.in_range KeyWidth ->
  size_t.in_range ValueWidth ->
  (std_string.size (toString (key item)) < KeyWidth ->
     getFormattedKey item
     = toString (key item)
       +:+ std_string.fill (KeyWidth - std_string.size (toString (key item))) " "
     /\ std_string.size (getFormattedKey item) = KeyWidth)
  /\ (std_string.size (toString (value item)) < ValueWidth ->
     getFormattedValue item
     = toString (value item)
       +:+ std_string.fill (ValueWidth - std_string.size (toString (value item))) " "
     /\ std_string.size (getFormattedValue item) = ValueWidth).
Proof.
  intros Hk Hv. unfold getFormattedKey, getFormattedValue.
  split; intros Hlt; (split; [now apply formatToWidth_short
                             | now apply size_formatToWidth]).
Qed.

End Formatting.

Lemma in_range_small z : 0 <= z < 65536 -> size_t.in_range z.
Proof. unfold size_t.in_range. rewrite modulus_value. lia. Qed.

(** C5 at the short and the long key of DisplayItemTests.cpp. *)
Lemma formatted_roundtrip_witness :
  (std_string.size (getFormattedKey hi_item) = 8
   /\ std_string.starts_with "Hi" (getFormattedKey hi_item))
  /\ (std_string.size (getFormattedKey long_item) = 8
   /\ std_string.starts_with (getFormattedKey long_item) "VeryLongKeyName"
   /\ getFormattedKey long_item = "VeryLong")
  /\ (std_string.size (getFormattedValue hi_item) = 4
   /\ std_string.starts_with "5" (getFormattedValue hi_item))
  /\ (std_string.size (getFormattedValue long_item) = 4
   /\ std_string.starts_with (getFormattedValue long_item) "1234567"
   /\ getFormattedValue long_item = "1234").
Proof.
  assert (H8 : size_t.in_range 8) by (apply in_range_small; lia).
  assert (H4 : size_t.in_range 4) by (apply in_range_small; lia).
  destruct (formatted_roundtrip hi_item H8 H4) as (Hk & _ & Hv & _).
  destruct (formatted_roundtrip long_item H8 H4) as (_ & Hk' & _ & Hv').
  split; [apply Hk; vm_compute; discriminate|].
  split; [apply Hk'; vm_compute; reflexivity|].
  split; [apply Hv; vm_compute; discriminate|].
  apply Hv'; vm_compute; reflexivity.
Defined.

(** C2 at the short key and value of DisplayItemTests.cpp. *)
Lemma formatted_short_is_padded_after_witness :
  getFormattedKey hi_item = "Hi" +:+ "      "
  /\ getFormattedValue hi_item = "5" +:+ "   ".
Proof.
  assert (H8 : size_t.in_range 8) by (apply in_range_small; lia).
  assert (H4 : size_t.in_range 4) by (apply in_range_small; lia).
  destruct (formatted_short_is_padded_after hi_item H8 H4) as (Hk & Hv).
  split; [apply Hk | apply Hv]; vm_compute; reflexivity.
Defined.

(** C2 as stated fails: with key ["Hi"] and key width 8 the rendered text
    is shorter than the width, yet the output is not the padding spaces
    followed by the text. *)
Lemma left_padding_counterexample :
  std_string.size (toString (key hi_item)) < 8
  /\ getFormattedKey hi_item
     <> std_string.fill (8 - std_string.size (toString (key hi_item))) " "
        +:+ toString (key hi_item)
  /\ std_string.size (toString (value hi_item)) < 4
  /\ getFormattedValue hi_item
     <> std_string.fill (4 - std_string.size (toString (value hi_item))) " "
        +:+ toString (value hi_item).
Proof.
  split; [vm_compute; reflexivity|].
  split; [vm_compute; discriminate|].
  split; [vm_compute; reflexivity|].
  vm_compute; discriminate.
Qed.

(** ** Numerals of 8-bit values *)

(** A check that holds on each of [lo, lo+1, ..., lo+n-1] holds on the
    whole interval. *)
Lemma forallb_interval (f : Z -> bool) (lo : Z) (n : nat) :
  forallb f (map (fun i => lo + Z.of_nat i) (seq 0 n)) = true ->
  forall z, lo <= z < lo + Z.of_nat n -> f z = true.
Proof.
  intros Hall z Hz. rewrite forallb_forall in Hall. apply Hall.
  apply in_map_iff. exists (Z.to_nat (z - lo)). split; [lia|].
  apply in_seq. lia.
Qed.

Lemma prints_numeral_of_spec {T} `{!Streamable T} (mk : Z -> T) z :
  prints_numeral_of mk z = true ->
  number_of_numeral (toString (mk z)) = Some z
  /\ toString (mk z) <> char_with_code z.
Proof.
  unfold prints_numeral_of. intros [Hn Hc]%andb_prop. split.
  - destruct (number_of_numeral (toString (mk z))) as [n|]; [|discriminate].
    apply Z.eqb_eq in Hn. congruence.
  - apply negb_true_iff in Hc. now apply String.eqb_neq in Hc.
Qed.

(** C9. For every [uint8_t] and every [int8_t] value, the text that
    [getFormattedValue] formats is the decimal numeral of the number (it
    reads back as that number), and it is never the one-character text
    holding the character with that code; value 65 renders as "65", not
    as "A". *)
Theorem byte_values_render_as_numerals :
  (forall v : uint8_t, uint8_ok v ->
     number_of_numeral (toString v) = Some (u8 v)
     /\ toString v <> char_with_code (u8 v))
  /\ (forall v : int8_t, int8_ok v ->
     number_of_numeral (toString v) = Some (i8 v)
     /\ toString v <> char_with_code (i8 v))
  /\ (forall (TKey : Type) `{!Streamable TKey} (KeyWidth ValueWidth : Z)
        (item : DisplayItem TKey uint8_t KeyWidth ValueWidth),
     getFormattedValue item = formatToWidth (toString (value item)) ValueWidth)
  /\ toString (U8 65) = "65"
  /\ toString (I8 65) = "65"
  /\ char_with_code 65 = "A"
  /\ getFormattedValue (MkDisplayItem 11 3 "Sword" (U8 65) : InventoryDisplayItem)
     = "65 ".
Proof.
  split; [|split; [|repeat split]].
  - intros [z] Hz. unfold uint8_ok in Hz. cbn [u8] in *.
    apply (prints_numeral_of_spec U8).
    apply (forallb_interval (prints_numeral_of U8) 0 256); [|lia].
    vm_compute. reflexivity.
  - intros [z] Hz. unfold int8_ok in Hz. cbn [i8] in *.
    apply (prints_numeral_of_spec I8).
    apply (forallb_interval (prints_numeral_of I8) (-128) 256); [|lia].
    vm_compute. reflexivity.
Qed.

(** C9 at the value 200 and at the value -7. *)
Lemma byte_values_render_as_numerals_witness :
  (toString (U8 200) = "200" /\ number_of_numeral "200" = Some 200)
  /\ (toString (I8 (-7)) = "-7" /\ number_of_numeral "-7" = Some (-7)).
Proof.
  destruct byte_values_render_as_numerals as (Hu & Hi & _).
  assert (Hu200 : uint8_ok (U8 200)) by (unfold uint8_ok; cbn; lia).
  assert (Hi7 : int8_ok (I8 (-7))) by (unfold int8_ok; cbn; lia).
  destruct (Hu _ Hu200) as [Hn _]. destruct (Hi _ Hi7) as [Hn' _].
  split; (split; [reflexivity|]); [exact Hn | exact Hn'].
Defined.

(** ** The controller *)

(** Reduce the projections of an explicit controller record. *)
Ltac fields :=
  cbn [config items renderer selectedItemIndex windowStartIndex isSelected
       set_selectedItemIndex set_windowStartIndex set_isSelected set_items
       items_size] in *.

(** Split on the tests and lookups a member function branches on. *)
Ltac crunch :=
  repeat match goal with
  | |- context [if ?b then _ else _] => destruct b
  | |- context [match ?l !! ?i with _ => _ end] => destruct (l !! i)
  | |- context [match ?r with nullptr => _ | renderer_at _ => _ end] => destruct r
  end.

(** Unfold the member functions that do not move the selection. *)
Ltac run :=
  unfold selectItem, deselectItem, setCurrentValue, getCurrentValue,
    getCurrentKey, validateItemIndex, render, IRenderer_render,
    bind, get, modify, ret, throw, undefined, emit.

(** Bring the fields of [sound] into the context. *)
Ltac facts H :=
  destruct H as [Hrows Hcols Hsize Hrend Hwidth Hws Hsel Habove Htop Hbot Hend];
  unfold size_t.in_range, items_size in *; rewrite ?modulus_value in *;
  fields.

Section ControllerFacts.

Context {TKey TValue : Type} `{!Streamable TKey, !Streamable TValue}.
Context {KeyWidth ValueWidth : Z}.

Local Abbreviation Controller := (LCDDisplayController TKey TValue KeyWidth ValueWidth).
Implicit Type this : Controller.

Lemma items_size_nil this : items this = [] -> items_size this = 0.
Proof. unfold items_size. intros ->. reflexivity. Qed.

Lemma items_size_pos this : items this <> [] -> 0 < items_size this.
Proof. unfold items_size. destruct (items this); [congruence|]. simpl. lia. Qed.

Lemma render_eq this :
  is_null (renderer this) = false -> render this = (inr tt, this, [frame this]).
Proof.
  intros Hr. unfold render, bind, get, IRenderer_render, emit, frame.
  destruct (renderer this); [discriminate|]. reflexivity.
Qed.

Lemma adjustWindow_eq this :
  adjustWindow this = (inr tt, set_windowStartIndex (adjusted this) this, []).
Proof.
  unfold adjustWindow, adjusted, bind, get, modify, ret.
  destruct this as [cfg its r sel ws flag]; cbn.
  destruct (bool_decide (its = [])); [reflexivity|].
  destruct (sel <? ws); [reflexivity|].
  destruct (sel >=? ws +! rows cfg); reflexivity.
Qed.



(** A navigation step that moves: the selection changes, the window is
    adjusted, the frame is pushed. *)
Lemma move_eq this (f : Controller -> Controller) :
  is_null (renderer (f this)) = false ->
  (modify f ;; adjustWindow ;; render ;; ret true) this
  = let this' := set_windowStartIndex (adjusted (f this)) (f this) in
    (inr true, this', [frame this']).
Proof.
  intros Hr. unfold bind at 1. unfold modify.
  unfold bind at 1. rewrite adjustWindow_eq.
  unfold bind at 1. rewrite render_eq by (destruct (f this); exact Hr).
  reflexivity.
Qed.

Lemma navigateUp_eq this :
  sound this ->
  navigateUp this =
    if selectedItemIndex this >? 0 then
      let selected := selectedItemIndex this - 1 in
      let start := if selected <? windowStartIndex this
                   then selected else windowStartIndex this in
      let this' := set_windowStartIndex start (set_selectedItemIndex selected this) in
      (inr true, this', [frame this'])
    else (inr false, this, []).
Proof.
  intros H. unfold navigateUp. unfold bind at 1, get.
  destruct (Z.gtb_spec (selectedItemIndex this) 0) as [Hpos|Hzero]; [|reflexivity].
  rewrite move_eq by (destruct this; apply H). cbn zeta. unfold adjusted.
  destruct this as [cfg its r sel ws flag]. facts H.
  assert (Hne : its <> []) by (intros ->; simpl in Hsel; lia).
  rewrite (bool_decide_eq_false_2 _ Hne). unwrap.
  destruct (Z.ltb_spec (sel - 1) ws) as [Hlt|Hge]; [reflexivity|].
  destruct (Z.geb_spec (sel - 1) (ws + rows cfg)) as [Hbad|Hok]; [lia|].
  reflexivity.
Qed.

Lemma navigateDown_eq this :
  sound this ->
  navigateDown this =
    if negb (bool_decide (items this = []))
       && (selectedItemIndex this <? items_size this - 1) then
      let selected := selectedItemIndex this + 1 in
      let start := if selected >=? windowStartIndex this + rows (config this)
                   then selected - rows (config this) + 1
                   else windowStartIndex this in
      let this' := set_windowStartIndex start (set_selectedItemIndex selected this) in
      (inr true, this', [frame this'])
    else (inr false, this, []).
Proof.
  intros H. unfold navigateDown. unfold bind at 1, get.
  destruct (decide (items this = [])) as [Hnil|Hne].
  { rewrite (bool_decide_eq_true_2 _ Hnil). reflexivity. }
  rewrite (bool_decide_eq_false_2 _ Hne). cbn [negb andb].
  pose proof (items_size_pos this Hne) as Hlen.
  destruct this as [cfg its r sel ws flag]. facts H. unwrap.
  destruct (Z.ltb_spec sel (Z.of_nat (length its) - 1)) as [Hlt|Hge]; [|reflexivity].
  rewrite move_eq by exact Hrend. cbn zeta. unfold adjusted. fields.
  rewrite (bool_decide_eq_false_2 _ Hne). unwrap.
  destruct (Z.ltb_spec (sel + 1) ws) as [Hbad|_]; [lia|].
  destruct (Z.geb_spec (sel + 1) (ws + rows cfg)) as [Hscroll|Hstay].
  - unwrap. reflexivity.
  - reflexivity.
Qed.

(** *** Every reachable state is sound *)

Lemma sound_same_navigation this this' :
  same_navigation this this' -> sound this -> sound this'.
Proof.
  intros (Hc & Hr & Hs & Hw & Hl) H.
  destruct H; constructor; unfold items_size in *;
    rewrite ?Hc, ?Hr, ?Hs, ?Hw, ?Hl; assumption.
Qed.



Lemma same_navigation_other (c : Call) this :
  c <> call_navigateUp -> c <> call_navigateDown ->
  same_navigation this (state (perform c this)).
Proof.
  intros Hup Hdown. destruct this as [cfg its r sel ws flag].
  destruct c; try congruence; unfold perform, state; run; fields;
    crunch; cbn; repeat split; try reflexivity.
  all: apply length_alter.
Qed.

Lemma sound_navigateUp this : sound this -> sound (state (navigateUp this)).
Proof.
  intros H. rewrite navigateUp_eq by exact H.
  destruct (Z.gtb_spec (selectedItemIndex this) 0) as [Hpos|Hzero]; [|exact H].
  cbn zeta. unfold state. cbn [fst snd].
  destruct this as [cfg its r sel ws flag]. facts H.
  destruct (Z.ltb_spec (sel - 1) ws); constructor; fields;
    unfold size_t.in_range, items_size; fields; rewrite ?modulus_value;
    try assumption; lia.
Qed.

Lemma sound_navigateDown this : sound this -> sound (state (navigateDown this)).
Proof.
  intros H. rewrite navigateDown_eq by exact H.
  destruct (decide (items this = [])) as [Hnil|Hne].
  { rewrite (bool_decide_eq_true_2 _ Hnil). exact H. }
  rewrite (bool_decide_eq_false_2 _ Hne). cbn [negb andb].
  destruct (Z.ltb_spec (selectedItemIndex this) (items_size this - 1))
    as [Hlt|Hge]; [|exact H].
  cbn zeta. unfold state. cbn [fst snd].
  destruct this as [cfg its r sel ws flag]. facts H.
  destruct (Z.geb_spec (sel + 1) (ws + rows cfg)); constructor; fields;
    unfold size_t.in_range, items_size; fields; rewrite ?modulus_value;
    try assumption; lia.
Qed.

Lemma state_bind_ret {A} (m : M Controller A) this :
  state ((m ;; ret tt) this) = state (m this).
Proof.
  unfold state, bind, ret. destruct (m this) as [[[e|a] s] out]; reflexivity.
Qed.

Lemma sound_perform (c : Call) this : sound this -> sound (state (perform c this)).
Proof.
  intros H. destruct c;
    try (apply (sound_same_navigation this); [|exact H];
         apply same_navigation_other; discriminate).
  - cbn [perform]. rewrite state_bind_ret. now apply sound_navigateUp.
  - cbn [perform]. rewrite state_bind_ret. now apply sound_navigateDown.
Qed.

Lemma construct_inr items_arg renderer_arg config_arg this out :
  construct items_arg renderer_arg config_arg = (inr this, out) ->
  this = MkLCDDisplayController config_arg items_arg renderer_arg 0 0 false
  /\ out = []
  /\ is_null renderer_arg = false
  /\ requiredWidth (KeyWidth := KeyWidth) (ValueWidth := ValueWidth)
     <= columns config_arg.
Proof.
  unfold construct, constructor_body, throw, ret.
  destruct (is_null renderer_arg); [discriminate|].
  destruct (Z.ltb_spec (columns config_arg)
              (requiredWidth (KeyWidth := KeyWidth) (ValueWidth := ValueWidth)));
    [discriminate|].
  intros [= <- <-]. auto.
Qed.

Lemma sound_construct items_arg renderer_arg config_arg this out :
  DisplayConfig_ok config_arg ->
  vector_ok items_arg ->
  construct items_arg renderer_arg config_arg = (inr this, out) ->
  sound this.
Proof.
  intros [Hrows Hcols] Hvec (-> & _ & Hr & Hw)%construct_inr.
  unfold vector_ok, size_t.in_range in *. rewrite modulus_value in *.
  constructor; unfold items_size, size_t.in_range; fields;
    rewrite ?modulus_value; try assumption; lia.
Qed.

Lemma reachable_sound this : reachable this -> sound this.
Proof.
  induction 1 as [items_arg renderer_arg config_arg this Hc Hv Hnew | this c _ IH].
  - now apply (sound_construct items_arg renderer_arg config_arg this []).
  - now apply sound_perform.
Qed.

End ControllerFacts.

(** ** The window invariant (C3) *)

Section WindowInvariant.

Context {TKey TValue : Type} `{!Streamable TKey, !Streamable TValue}.
Context {KeyWidth ValueWidth : Z}.

Local Abbreviation Controller := (LCDDisplayController TKey TValue KeyWidth ValueWidth).
Implicit Type this : Controller.

Lemma sound_navigate (m : Move) this : sound this -> sound (state (navigate m this)).
Proof. destruct m; [apply sound_navigateUp | apply sound_navigateDown]. Qed.

Lemma navigate_keeps_config_and_items (m : Move) this :
  sound this ->
  config (state (navigate m this)) = config this
  /\ items (state (navigate m this)) = items this.
Proof.
  intros H. destruct m; cbn [navigate].
  - rewrite navigateUp_eq by exact H.
    destruct (selectedItemIndex this >? 0); destruct this; split; reflexivity.
  - rewrite navigateDown_eq by exact H.
    destruct (negb (bool_decide (items this = []))
              && (selectedItemIndex this <? items_size this - 1));
      destruct this; split; reflexivity.
Qed.

Lemma sound_window_invariant this :
  sound this -> 1 <= rows (config this) ->
  window_invariant this
  /\ (items_size this <= rows (config this) -> windowStartIndex this = 0).
Proof.
  intros H Hrows. unfold window_invariant.
  pose proof (sound_top this H Hrows). pose proof (sound_bottom this H).
  pose proof (sound_end this H). pose proof (sound_window_start this H).
  repeat split; lia.
Qed.

Lemma trajectory_invariant (moves : list Move) this :
  sound this -> 1 <= rows (config this) ->
  Forall (fun s : Controller =>
            window_invariant s
            /\ (items_size s <= rows (config s) -> windowStartIndex s = 0))
         (trajectory moves this).
Proof.
  revert this. induction moves as [|m moves IH]; intros this H Hrows.
  - constructor.
  - cbn [trajectory].
    pose proof (sound_navigate m this H) as H'.
    destruct (navigate_keeps_config_and_items m this H) as [Hcfg _].
    constructor.
    + apply sound_window_invariant; [exact H' | rewrite Hcfg; exact Hrows].
    + apply IH; [exact H' | rewrite Hcfg; exact Hrows].
Qed.

(** C3, as the code has it. For every non-empty store, every
    configuration with at least one row and every finite sequence of
    navigateUp/navigateDown calls starting from the freshly constructed
    controller, the state after each call satisfies
    [windowStart <= selectedIndex < windowStart + rows] and
    [windowStart + rows <= max(length, rows)]; in particular
    [windowStart] is 0 whenever [length <= rows]. *)
Theorem window_invariant_after_each_call
    (items_arg : list (DisplayItem TKey TValue KeyWidth ValueWidth))
    (renderer_arg : shared_ptr_IRenderer) (config_arg : DisplayConfig)
    this (moves : list Move) :
  DisplayConfig_ok config_arg ->
  vector_ok items_arg ->
  items_arg <> [] ->
  1 <= rows config_arg ->
  construct items_arg renderer_arg config_arg = (inr this, []) ->
  Forall (fun s : Controller =>
            window_invariant s
            /\ (items_size s <= rows (config s) -> windowStartIndex s = 0))
         (trajectory moves this).
Proof.
  intros Hcfg Hvec _ Hrows Hnew. apply trajectory_invariant.
  - now apply (sound_construct items_arg renderer_arg config_arg this []).
  - apply construct_inr in Hnew as (-> & _). exact Hrows.
Qed.

End WindowInvariant.

Lemma test_config_ok : DisplayConfig_ok test_config.
Proof. split; apply in_range_small; cbn; lia. Qed.

Lemma createItems_ok n : (n < 1000)%nat -> vector_ok (createItems n).
Proof.
  intros Hn. unfold vector_ok, createItems.
  rewrite length_map, length_seq, modulus_value. lia.
Qed.

Lemma construct_test n :
  construct (createItems n) mockRenderer test_config = (inr (test_controller n), []).
Proof. reflexivity. Qed.

(** C3 at the five-record store of ScrollingTests.cpp, walking down to the
    last record and back up by two. *)
Lemma window_invariant_after_each_call_witness :
  Forall (fun s : LCDDisplayController string int 10 4 =>
            window_invariant s
            /\ (items_size s <= rows (config s) -> windowStartIndex s = 0))
         (trajectory [MoveDown; MoveDown; MoveDown; MoveDown; MoveDown; MoveUp; MoveUp]
            (test_controller 5)).
Proof.
  apply (window_invariant_after_each_call
           (createItems 5) mockRenderer test_config).
  - exact test_config_ok.
  - apply createItems_ok. lia.
  - discriminate.
  - cbn. lia.
  - apply construct_test.
Defined.

(** C3 as stated fails when the configuration has no rows: with two
    records and [rows = 0], one navigateDown leaves [selectedIndex = 1]
    and [windowStart = 2]. *)
Lemma window_invariant_counterexample :
  DisplayConfig_ok zero_rows_config
  /\ vector_ok (createItems 2)
  /\ createItems 2 <> []
  /\ construct (createItems 2) mockRenderer zero_rows_config
     = (inr zero_rows_controller, [])
  /\ selectedItemIndex (state (navigateDown zero_rows_controller)) = 1
  /\ windowStartIndex (state (navigateDown zero_rows_controller)) = 2
  /\ ~ Forall window_invariant (trajectory [MoveDown] zero_rows_controller).
Proof.
  split; [split; apply in_range_small; cbn; lia|].
  split; [apply createItems_ok; lia|].
  split; [discriminate|].
  split; [reflexivity|].
  split; [reflexivity|].
  split; [reflexivity|].
  intros Hall. apply Forall_cons_1 in Hall as [[[Hle _] _] _].
  vm_compute in Hle. apply Hle. reflexivity.
Qed.

(** ** navigateDown (C4) *)

(** C4. On a reachable state, navigateDown moves exactly when the store is
    non-empty and [selectedIndex < length - 1]: it then increments
    [selectedIndex], sets [windowStart] to [selectedIndex - rows + 1] when
    the new [selectedIndex >= windowStart + rows] and leaves it alone
    otherwise, returns true and pushes the one frame of the new state;
    otherwise it returns false, leaves the state as it is and pushes
    nothing. From the initial state with 5 records and 2 rows, three calls
    give [selectedIndex = 3], [windowStart = 2], and the last frame shows
    record 2 behind a space on row 0 and record 3 behind the cursor glyph
    on row 1. *)
Theorem navigateDown_spec :
  (forall (TKey TValue : Type) `{!Streamable TKey, !Streamable TValue}
      (KeyWidth ValueWidth : Z)
      (this : LCDDisplayController TKey TValue KeyWidth ValueWidth),
    reachable this ->
    (items this <> [] /\ selectedItemIndex this < items_size this - 1 ->
       let selected := selectedItemIndex this + 1 in
       let start :=
         if selected >=? windowStartIndex this + rows (config this)
         then selected - rows (config this) + 1
         else windowStartIndex this in
       let this' :=
         MkLCDDisplayController (config this) (items this) (renderer this)
           selected start (isSelected this) in
       navigateDown this = (inr true, this', [frame this']))
    /\ (~ (items this <> [] /\ selectedItemIndex this < items_size this - 1) ->
       navigateDown this = (inr false, this, [])))
  /\ (let run3 := (navigateDown ;; navigateDown ;; navigateDown) (test_controller 5) in
      construct (createItems 5) mockRenderer test_config
      = (inr (test_controller 5), [])
      /\ result run3 = inr true
      /\ selectedItemIndex (state run3) = 3
      /\ windowStartIndex (state run3) = 2
      /\ pushed run3 = scenario1_frames
      /\ createItems 5 !! 2%nat = Some (MkDisplayItem 10 4 "Item2" (Int 2))
      /\ createItems 5 !! 3%nat = Some (MkDisplayItem 10 4 "Item3" (Int 3))
      /\ frame_lines (state run3)
         = [ " " +:+ getFormattedKey (MkDisplayItem 10 4 "Item2" (Int 2))
               +:+ ":" +:+ getFormattedValue (MkDisplayItem 10 4 "Item2" (Int 2));
             ">" +:+ getFormattedKey (MkDisplayItem 10 4 "Item3" (Int 3))
               +:+ ":" +:+ getFormattedValue (MkDisplayItem 10 4 "Item3" (Int 3)) ]).
Proof.
  split.
  - intros TKey TValue SK SV KeyWidth ValueWidth this Hreach.
    apply reachable_sound in Hreach as H.
    rewrite (navigateDown_eq this H). split.
    + intros [Hne Hlt].
      rewrite (bool_decide_eq_false_2 _ Hne). cbn [negb andb].
      destruct (Z.ltb_spec (selectedItemIndex this) (items_size this - 1));
        [|lia].
      destruct this; reflexivity.
    + intros Hstay.
      destruct (decide (items this = [])) as [Hnil|Hne].
      { rewrite (bool_decide_eq_true_2 _ Hnil). reflexivity. }
      rewrite (bool_decide_eq_false_2 _ Hne). cbn [negb andb].
      destruct (Z.ltb_spec (selectedItemIndex this) (items_size this - 1));
        [|reflexivity].
      exfalso. apply Hstay. split; assumption.
  - cbn zeta. repeat split; vm_compute; reflexivity.
Qed.

(** The freshly constructed five-record controller is reachable. *)
Lemma test_controller_reachable n :
  (n < 1000)%nat -> reachable (test_controller n).
Proof.
  intros Hn.
  apply (reachable_construct (createItems n) mockRenderer test_config).
  - exact test_config_ok.
  - now apply createItems_ok.
  - apply construct_test.
Qed.

(** C4 at the initial state of the five-record controller (a move) and at
    the single-record controller (no move). *)
Lemma navigateDown_spec_witness :
  navigateDown (test_controller 5)
  = (inr true,
     MkLCDDisplayController test_config (createItems 5) mockRenderer 1 0 false,
     [MkRenderCall [" Item0     :0   "; ">Item1     :1   "] 16])
  /\ navigateDown (test_controller 1) = (inr false, test_controller 1, []).
Proof.
  destruct navigateDown_spec as [Hgen _]. split.
  - assert (Hr : reachable (test_controller 5))
      by (apply test_controller_reachable; lia).
    destruct (Hgen _ _ _ _ _ _ (test_controller 5) Hr) as [Hmove _].
    rewrite Hmove; [reflexivity|].
    split; [discriminate | vm_compute; reflexivity].
  - assert (Hr : reachable (test_controller 1))
      by (apply test_controller_reachable; lia).
    destruct (Hgen _ _ _ _ _ _ (test_controller 1) Hr) as [_ Hstay].
    apply Hstay. intros [_ Hlt]. vm_compute in Hlt. discriminate.
Defined.

(** ** Rendering an empty store (C1) *)

Section EmptyStore.

Context {TKey TValue : Type} `{!Streamable TKey, !Streamable TValue}.
Context {KeyWidth ValueWidth : Z}.

Local Abbreviation Controller := (LCDDisplayController TKey TValue KeyWidth ValueWidth).
Implicit Type this : Controller.

Lemma formatRow_empty this (rowIndex : Z) :
  sound this -> items this = [] ->
  0 <= rowIndex < size_t.modulus ->
  formatRow this rowIndex
  = if columns (config this) =? 0 then EmptyString
    else String (if rowIndex =? 0 then navigatorChar (config this) else " "%char)
                (std_string.fill (columns (config this) - 1) " ").
Proof.
  intros H Hnil Hrow. unfold formatRow, getNavigatorRowInWindow.
  rewrite (items_size_nil this Hnil).
  pose proof (sound_selected this H) as Hsel.
  pose proof (sound_end this H) as Hend.
  pose proof (sound_window_start this H) as Hws.
  pose proof (sound_columns this H) as Hcols.
  pose proof (sound_rows this H) as Hrows.
  rewrite (items_size_nil this Hnil) in Hsel, Hend.
  unfold size_t.in_range in Hcols, Hrows. rewrite modulus_value in *.
  assert (Hs0 : selectedItemIndex this = 0) by lia.
  assert (Hw0 : windowStartIndex this = 0) by lia.
  rewrite Hs0, Hw0. unwrap. rewrite !Z.add_0_l. change (0 - 0) with 0.
  destruct (Z.ltb_spec rowIndex 0) as [Hneg|_]; [lia|].
  unfold std_string.push_back. rewrite append_nil, append_cons, append_nil.
  set (c := if rowIndex =? 0 then navigatorChar (config this) else " "%char).
  destruct (Z.gtb_spec (columns (config this)) 1) as [Hwide|Hnarrow].
  - unwrap. rewrite size_String, size_fill.
    destruct (Z.ltb_spec (1 + Z.max 0 (columns (config this) - 1))
                (columns (config this))); [lia|].
    destruct (Z.gtb_spec (1 + Z.max 0 (columns (config this) - 1))
                (columns (config this))); [lia|].
    destruct (Z.eqb_spec (columns (config this)) 0); [lia|]. reflexivity.
  - rewrite size_String, size_fill. cbn [Z.max Z.compare Z.add Pos.add].
    destruct (Z.eqb_spec (columns (config this)) 0) as [->|Hne].
    + reflexivity.
    + assert (Hone : columns (config this) = 1) by lia. rewrite Hone.
      reflexivity.
Qed.

(** C1, as the code has it. For a reachable controller over an empty
    record store, render raises nothing, leaves the state alone and pushes
    exactly one frame of exactly [rows] lines, each of exactly [columns]
    characters; every line but the first consists of spaces only, and the
    first line is the cursor glyph followed by [columns - 1] spaces. *)
Theorem render_empty_store this :
  reachable this ->
  items this = [] ->
  exists lines,
    render this = (inr tt, this, [MkRenderCall lines (columns (config this))])
    /\ Z.of_nat (length lines) = rows (config this)
    /\ forall (i : nat) (line : string), lines !! i = Some line ->
         std_string.size line = columns (config this)
         /\ (i <> 0%nat -> std_string.all_spaces line = true)
         /\ (i = 0%nat -> 1 <= columns (config this) ->
             line = String (navigatorChar (config this))
                           (std_string.fill (columns (config this) - 1) " ")).
Proof.
  intros Hreach Hnil. apply reachable_sound in Hreach as H.
  exists (frame_lines this). split; [|split].
  - apply render_eq. apply H.
  - unfold frame_lines. rewrite length_map, length_seq.
    pose proof (sound_rows this H) as Hrows. unfold size_t.in_range in Hrows. lia.
  - intros i line Hline. unfold frame_lines in Hline.
    rewrite list_lookup_fmap in Hline.
    destruct (seq 0 (Z.to_nat (rows (config this))) !! i) as [j|] eqn:Hj;
      [|discriminate].
    apply lookup_seq in Hj as [-> Hlt]. cbn in Hline.
    injection Hline as <-.
    pose proof (sound_rows this H) as Hrows.
    pose proof (sound_columns this H) as Hcols.
    unfold size_t.in_range in Hrows, Hcols. rewrite modulus_value in *.
    rewrite formatRow_empty by (try assumption; rewrite ?modulus_value; lia).
    destruct (Z.eqb_spec (columns (config this)) 0) as [Hzero|Hpos].
    + rewrite Hzero. repeat split; try reflexivity. intros _ Hbad. lia.
    + repeat split.
      * rewrite size_String, size_fill. lia.
      * intros Hi. destruct (Z.eqb_spec (Z.of_nat i) 0) as [|_]; [lia|].
        cbn [std_string.all_spaces]. apply all_spaces_fill.
      * intros -> _. reflexivity.
Qed.

End EmptyStore.

(** C1 at the empty store of DisplayControllerTests.cpp. *)
Lemma render_empty_store_witness :
  exists lines,
    render (test_controller 0) = (inr tt, test_controller 0, [MkRenderCall lines 16])
    /\ Z.of_nat (length lines) = 2
    /\ forall (i : nat) (line : string), lines !! i = Some line ->
         std_string.size line = 16
         /\ (i <> 0%nat -> std_string.all_spaces line = true)
         /\ (i = 0%nat -> 1 <= 16 -> line = String ">" (std_string.fill 15 " ")).
Proof.
  apply (render_empty_store (test_controller 0)).
  - apply test_controller_reachable. lia.
  - reflexivity.
Defined.

(** C1 as stated fails: on the empty store with 2 rows and 16 columns the
    first pushed line starts with the cursor glyph, so it does not consist
    of 16 spaces. *)
Lemma render_empty_store_counterexample :
  construct (createItems 0) mockRenderer test_config
  = (inr (test_controller 0), [])
  /\ items (test_controller 0) = []
  /\ render (test_controller 0)
     = (inr tt, test_controller 0,
        [MkRenderCall [">               "; "                "] 16])
  /\ ">               " <> std_string.fill 16 " "
  /\ std_string.all_spaces ">               " = false.
Proof. repeat split; vm_compute; try reflexivity; discriminate. Qed.

(** ** Index errors (C6), the armed flag (C10), construction (C8) *)

Section ErrorPaths.

Context {TKey TValue : Type} `{!Streamable TKey, !Streamable TValue}.
Context {KeyWidth ValueWidth : Z}.

Local Abbreviation Controller := (LCDDisplayController TKey TValue KeyWidth ValueWidth).
Implicit Type this : Controller.

Lemma validateItemIndex_fails this :
  items_size this <= selectedItemIndex this ->
  validateItemIndex (selectedItemIndex this) this = (inl index_error, this, []).
Proof.
  intros Hge. unfold validateItemIndex, bind, get, throw.
  destruct (Z.geb_spec (selectedItemIndex this) (items_size this)); [|lia].
  reflexivity.
Qed.

Lemma validateItemIndex_passes this :
  selectedItemIndex this < items_size this ->
  validateItemIndex (selectedItemIndex this) this = (inr tt, this, []).
Proof.
  intros Hlt. unfold validateItemIndex, bind, get, ret.
  destruct (Z.geb_spec (selectedItemIndex this) (items_size this)); [lia|].
  reflexivity.
Qed.

(** C6. On an empty store, or whenever [selectedIndex >= length],
    getCurrentValue, getCurrentKey and setCurrentValue each throw the
    out-of-range error; the controller (store contents, selectedIndex,
    windowStart, armed flag) is then exactly as before, and nothing has
    been pushed to the sink. *)
Theorem index_error_is_atomic this {T : Type} `{!Convertible T TValue} (newValue : T) :
  0 <= selectedItemIndex this ->
  items this = [] \/ items_size this <= selectedItemIndex this ->
  getCurrentValue this = (inl index_error, this, [])
  /\ getCurrentKey this = (inl index_error, this, [])
  /\ setCurrentValue newValue this = (inl index_error, this, []).
Proof.
  intros Hsel Hcase.
  assert (Hge : items_size this <= selectedItemIndex this).
  { destruct Hcase as [Hnil|Hge]; [|exact Hge].
    rewrite (items_size_nil this Hnil). exact Hsel. }
  unfold getCurrentValue, getCurrentKey, setCurrentValue.
  repeat split; unfold bind at 1, get; unfold bind at 1;
    rewrite validateItemIndex_fails by exact Hge; reflexivity.
Qed.

Lemma frame_lines_ignore_isSelected this (b : bool) :
  frame_lines (set_isSelected b this) = frame_lines this.
Proof. destruct this. reflexivity. Qed.

Lemma render_set_isSelected this (b : bool) :
  result (render (set_isSelected b this)) = result (render this)
  /\ pushed (render (set_isSelected b this)) = pushed (render this).
Proof.
  unfold render, bind, get, IRenderer_render, emit, undefined, result, pushed.
  rewrite frame_lines_ignore_isSelected.
  destruct this as [cfg its r sel ws flag]; cbn. destruct r; split; reflexivity.
Qed.

(** C10. The pushed lines do not depend on the armed flag: two
    controllers that agree on everything but [isSelected] push the same
    frame when rendered, so the frame pushed by selectItem or
    deselectItem is the frame render would have pushed just before. *)
Theorem frame_independent_of_armed_flag this1 this2 :
  config this1 = config this2 ->
  items this1 = items this2 ->
  renderer this1 = renderer this2 ->
  selectedItemIndex this1 = selectedItemIndex this2 ->
  windowStartIndex this1 = windowStartIndex this2 ->
  result (render this1) = result (render this2)
  /\ pushed (render this1) = pushed (render this2)
  /\ (isSelected this1 = false ->
      pushed (selectItem this1) = pushed (render this1))
  /\ (isSelected this1 = true ->
      pushed (deselectItem this1) = pushed (render this1)).
Proof.
  intros Hc Hi Hr Hs Hw.
  assert (Heq : this2 = set_isSelected (isSelected this2) this1).
  { destruct this1, this2; cbn in *; subst; reflexivity. }
  split; [|split; [|split]].
  - rewrite Heq. symmetry. apply render_set_isSelected.
  - rewrite Heq. symmetry. apply render_set_isSelected.
  - intros Hoff. unfold selectItem, bind at 1, get. rewrite Hoff. cbn [negb].
    destruct (render_set_isSelected this1 true) as [_ Hp].
    rewrite <- Hp. unfold modify, bind, ret, pushed.
    destruct (render (set_isSelected true this1)) as [[[e|[]] s] out]; cbn;
      rewrite ?app_nil_r; reflexivity.
  - intros Hon. unfold deselectItem, bind at 1, get. rewrite Hon.
    destruct (render_set_isSelected this1 false) as [_ Hp].
    rewrite <- Hp. unfold modify, bind, ret, pushed.
    destruct (render (set_isSelected false this1)) as [[[e|[]] s] out]; cbn;
      rewrite ?app_nil_r; reflexivity.
Qed.

Lemma perform_never_invalid_argument (c : Call) this what :
  result (perform c this) <> inl (Throw (invalid_argument what)).
Proof.
  destruct this as [cfg its r sel ws flag].
  destruct c; unfold perform, result, navigateUp, navigateDown, adjustWindow; run;
    fields; crunch; cbn; discriminate.
Qed.

(** C8. Construction throws [invalid_argument] when the sink is null,
    and when [columns < 1 + keyWidth + 1 + valueWidth]; in both cases
    nothing is pushed to the sink and no controller comes into being.
    No call on a constructed controller ever throws [invalid_argument]. *)
Theorem construction_validates_configuration
    (items_arg : list (DisplayItem TKey TValue KeyWidth ValueWidth))
    (renderer_arg : shared_ptr_IRenderer) (config_arg : DisplayConfig) :
  0 <= KeyWidth -> 0 <= ValueWidth ->
  1 + KeyWidth + 1 + ValueWidth < size_t.modulus ->
  (exists what,
      construct items_arg nullptr config_arg
      = (inl (Throw (invalid_argument what)), []))
  /\ (columns config_arg < 1 + KeyWidth + 1 + ValueWidth ->
      exists what,
        construct items_arg renderer_arg config_arg
        = (inl (Throw (invalid_argument what)), []))
  /\ (forall this (c : Call) what,
        reachable this ->
        result (perform c this) <> inl (Throw (invalid_argument what))).
Proof.
  intros Hk Hv Hfit. split; [|split].
  - eexists. reflexivity.
  - intros Hsmall. unfold construct, constructor_body, throw.
    destruct (is_null renderer_arg); [eexists; reflexivity|].
    assert (Hreq : requiredWidth (KeyWidth := KeyWidth) (ValueWidth := ValueWidth)
                   = 1 + KeyWidth + 1 + ValueWidth).
    { unfold requiredWidth, getKeyWidth, getValueWidth.
      rewrite modulus_value in Hfit. unwrap. reflexivity. }
    rewrite Hreq.
    destruct (Z.ltb_spec (columns config_arg) (1 + KeyWidth + 1 + ValueWidth));
      [|lia].
    eexists. reflexivity.
  - intros this c what _. apply perform_never_invalid_argument.
Qed.

End ErrorPaths.

(** C6 at the empty store: [DisplayConfig(2, 16)], no records. *)
Lemma index_error_is_atomic_witness :
  getCurrentValue (test_controller 0) = (inl index_error, test_controller 0, [])
  /\ getCurrentKey (test_controller 0) = (inl index_error, test_controller 0, [])
  /\ setCurrentValue (Int 999) (test_controller 0)
     = (inl index_error, test_controller 0, []).
Proof.
  apply (index_error_is_atomic (test_controller 0) (Int 999)).
  - cbn. lia.
  - left. reflexivity.
Defined.

(** C10 at the three-record controller, disarmed and armed. *)
Lemma frame_independent_of_armed_flag_witness :
  pushed (render (test_controller 3))
  = pushed (render (set_isSelected true (test_controller 3)))
  /\ pushed (selectItem (test_controller 3)) = pushed (render (test_controller 3)).
Proof.
  destruct (frame_independent_of_armed_flag
              (test_controller 3) (set_isSelected true (test_controller 3))
              eq_refl eq_refl eq_refl eq_refl eq_refl) as (_ & Hp & Hsel & _).
  split; [exact Hp | apply Hsel; reflexivity].
Defined.

(** C8 at the two constructor tests of DisplayControllerTests.cpp. *)
Lemma construction_validates_configuration_witness :
  (exists what,
      construct (createItems 3) nullptr smallConfig
      = (inl (Throw (invalid_argument what)), []))
  /\ (exists what,
      construct (createItems 3) mockRenderer smallConfig
      = (inl (Throw (invalid_argument what)), [])).
Proof.
  assert (H10 : 0 <= 10) by lia. assert (H4 : 0 <= 4) by lia.
  assert (Hfit : 1 + 10 + 1 + 4 < size_t.modulus) by reflexivity.
  destruct (construction_validates_configuration
              (createItems 3) mockRenderer smallConfig H10 H4 Hfit)
    as (Hnull & Hsmall & _).
  split; [exact Hnull | apply Hsmall; cbn; lia].
Defined.

(** ** Increment and decrement (C7) *)

Section InventoryFacts.

Context {TKey : Type} `{!Streamable TKey}.
Context {KeyWidth ValueWidth : Z}.

Local Abbreviation Controller := (LCDDisplayController TKey uint8_t KeyWidth ValueWidth).
Implicit Type this : Controller.

Lemma selected_in_range this item :
  0 <= selectedItemIndex this ->
  items this !! Z.to_nat (selectedItemIndex this) = Some item ->
  selectedItemIndex this < items_size this.
Proof.
  intros Hsel Hitem. apply lookup_lt_Some in Hitem. unfold items_size. lia.
Qed.

Lemma setCurrentValue_eq this item {T : Type} `{!Convertible T uint8_t}
    (newValue : T) :
  is_null (renderer this) = false ->
  0 <= selectedItemIndex this ->
  items this !! Z.to_nat (selectedItemIndex this) = Some item ->
  setCurrentValue newValue this
  = (inr tt, with_value (convert newValue) this,
     [frame (with_value (convert newValue) this)]).
Proof.
  intros Hr Hsel Hitem. unfold setCurrentValue.
  unfold bind at 1, get. unfold bind at 1.
  rewrite validateItemIndex_passes by now apply (selected_in_range this item).
  unfold bind at 1, modify. fold (with_value (convert newValue) this).
  rewrite render_eq by (destruct this; exact Hr). reflexivity.
Qed.

Lemma getCurrentValue_eq this item :
  0 <= selectedItemIndex this ->
  items this !! Z.to_nat (selectedItemIndex this) = Some item ->
  getCurrentValue this = (inr (value item), this, []).
Proof.
  intros Hsel Hitem. unfold getCurrentValue.
  unfold bind at 1, get. unfold bind at 1.
  rewrite validateItemIndex_passes by now apply (selected_in_range this item).
  rewrite Hitem. reflexivity.
Qed.

(** C7. With a record selected, incrementValue reads its value [v] and
    writes back [v + 1] through setCurrentValue, decrementValue writes back
    [v - 1]; each pushes exactly the one frame of the updated state, as
    every successful setCurrentValue does. For the 8-bit unsigned value
    type the written value is reduced modulo 256: incrementing 255 stores
    0 and decrementing 0 stores 255. *)
Theorem increment_decrement_wrap this item :
  is_null (renderer this) = false ->
  0 <= selectedItemIndex this ->
  items this !! Z.to_nat (selectedItemIndex this) = Some item ->
  uint8_ok (value item) ->
  let controller := Inventory.MkLCDInventoryController this in
  let stored (v : Z) := with_value (U8 (v mod 256)) this in
  Inventory.incrementValue controller
  = (inr tt, Inventory.MkLCDInventoryController (stored (u8 (value item) + 1)),
     [frame (stored (u8 (value item) + 1))])
  /\ Inventory.decrementValue controller
  = (inr tt, Inventory.MkLCDInventoryController (stored (u8 (value item) - 1)),
     [frame (stored (u8 (value item) - 1))])
  /\ items (stored (u8 (value item) + 1)) !! Z.to_nat (selectedItemIndex this)
     = Some (MkDisplayItem KeyWidth ValueWidth (key item)
               (U8 ((u8 (value item) + 1) mod 256)))
  /\ items (stored (u8 (value item) - 1)) !! Z.to_nat (selectedItemIndex this)
     = Some (MkDisplayItem KeyWidth ValueWidth (key item)
               (U8 ((u8 (value item) - 1) mod 256)))
  /\ (u8 (value item) = 255 ->
      Inventory.incrementValue controller
      = (inr tt, Inventory.MkLCDInventoryController (with_value (U8 0) this),
         [frame (with_value (U8 0) this)]))
  /\ (u8 (value item) = 0 ->
      Inventory.decrementValue controller
      = (inr tt, Inventory.MkLCDInventoryController (with_value (U8 255) this),
         [frame (with_value (U8 255) this)]))
  /\ (forall newValue : uint8_t,
        setCurrentValue newValue this
        = (inr tt, with_value newValue this, [frame (with_value newValue this)])).
Proof.
  intros Hr Hsel Hitem Hok controller stored. unfold uint8_ok in Hok.
  assert (Hplus : convert (Convertible := narrow) (add_int (value item) (Int 1))
                  = U8 ((u8 (value item) + 1) mod 256)).
  { unfold convert, narrow, add_int, Arithmetic_uint8_t, int_to_uint8, int_add,
      uint8_to_int, int_norm. cbn [int_val]. f_equal. f_equal.
    rewrite Z.mod_small by lia. lia. }
  assert (Hminus : convert (Convertible := narrow) (sub_int (value item) (Int 1))
                   = U8 ((u8 (value item) - 1) mod 256)).
  { unfold convert, narrow, sub_int, Arithmetic_uint8_t, int_to_uint8, int_sub,
      uint8_to_int, int_norm. cbn [int_val]. f_equal. f_equal.
    rewrite Z.mod_small by lia. lia. }
  assert (Hinc : Inventory.incrementValue controller
          = (inr tt, Inventory.MkLCDInventoryController (stored (u8 (value item) + 1)),
             [frame (stored (u8 (value item) + 1))])).
  { unfold Inventory.incrementValue, Inventory.on_displayController, controller.
    unfold bind. cbn [Inventory.displayController].
    rewrite (getCurrentValue_eq this item) by assumption.
    rewrite (setCurrentValue_eq this item) by assumption.
    rewrite Hplus. reflexivity. }
  assert (Hdec : Inventory.decrementValue controller
          = (inr tt, Inventory.MkLCDInventoryController (stored (u8 (value item) - 1)),
             [frame (stored (u8 (value item) - 1))])).
  { unfold Inventory.decrementValue, Inventory.on_displayController, controller.
    unfold bind. cbn [Inventory.displayController].
    rewrite (getCurrentValue_eq this item) by assumption.
    rewrite (setCurrentValue_eq this item) by assumption.
    rewrite Hminus. reflexivity. }
  split; [exact Hinc|]. split; [exact Hdec|]. repeat split.
  - unfold stored, with_value. destruct this; cbn in *.
    rewrite list_lookup_alter_eq, Hitem. reflexivity.
  - unfold stored, with_value. destruct this; cbn in *.
    rewrite list_lookup_alter_eq, Hitem. reflexivity.
  - intros Hmax. rewrite Hinc. unfold stored. rewrite Hmax. reflexivity.
  - intros Hmin. rewrite Hdec. unfold stored. rewrite Hmin. reflexivity.
  - intros newValue. exact (setCurrentValue_eq this item newValue Hr Hsel Hitem).
Qed.

End InventoryFacts.

(** C7 at both ends of the range: incrementing 255 shows 0, decrementing
    0 shows 255. *)
Lemma increment_decrement_wrap_witness :
  Inventory.incrementValue (Inventory.MkLCDInventoryController (inventory_controller 0))
  = (inr tt,
     Inventory.MkLCDInventoryController
       (MkLCDDisplayController test_config
          [ MkDisplayItem 11 3 "Sword" (U8 0); MkDisplayItem 11 3 "Shield" (U8 0) ]
          mockRenderer 0 0 false),
     [MkRenderCall [">Sword      :0  "; " Shield     :0  "] 16])
  /\ Inventory.decrementValue (Inventory.MkLCDInventoryController (inventory_controller 1))
  = (inr tt,
     Inventory.MkLCDInventoryController
       (MkLCDDisplayController test_config
          [ MkDisplayItem 11 3 "Sword" (U8 255); MkDisplayItem 11 3 "Shield" (U8 255) ]
          mockRenderer 1 0 false),
     [MkRenderCall [" Sword      :255"; ">Shield     :255"] 16]).
Proof.
  split.
  - assert (Hok : uint8_ok (U8 255)) by (unfold uint8_ok; cbn; lia).
    destruct (increment_decrement_wrap (inventory_controller 0)
                (MkDisplayItem 11 3 "Sword" (U8 255))
                eq_refl (Z.le_refl 0) eq_refl Hok)
      as (_ & _ & _ & _ & Hmax & _).
    rewrite Hmax; reflexivity.
  - assert (Hok : uint8_ok (U8 0)) by (unfold uint8_ok; cbn; lia).
    assert (Hsel : 0 <= 1) by lia.
    destruct (increment_decrement_wrap (inventory_controller 1)
                (MkDisplayItem 11 3 "Shield" (U8 0))
                eq_refl Hsel eq_refl Hok)
      as (_ & _ & _ & _ & _ & Hmin & _).
    rewrite Hmin; reflexivity.
Defined.

(** ** The test suite, replayed on the model *)

Example ConstructorWithNullRendererThrows :
  construct (createItems 3) nullptr test_config
  = (inl (Throw (invalid_argument "Renderer cannot be null")), []).
Proof. reflexivity. Qed.

Example NavigatorCharAppearsOnSelectedRow :
  pushed (render (test_controller 2))
  = [MkRenderCall [">Item0     :0   "; " Item1     :1   "] 16].
Proof. reflexivity. Qed.

Example NavigateUpAtTopDoesNotRender :
  navigateUp (test_controller 3) = (inr false, test_controller 3, []).
Proof. reflexivity. Qed.

Example ThreeItemsInTwoRowDisplayCanScroll :
  canScroll (test_controller 3) = true
  /\ selectedItemIndex (state ((navigateDown ;; navigateDown) (test_controller 3))) = 2
  /\ windowStartIndex (state ((navigateDown ;; navigateDown) (test_controller 3))) = 1.
Proof. repeat split; reflexivity. Qed.

Example SingleItemDoesNotScroll :
  canScroll (test_controller 1) = false
  /\ navigateDown (test_controller 1) = (inr false, test_controller 1, []).
Proof. split; reflexivity. Qed.

Example SelectItemReturnsFalseWhenAlreadySelected :
  result ((selectItem ;; selectItem) (test_controller 2)) = inr false
  /\ length (pushed ((selectItem ;; selectItem) (test_controller 2))) = 1%nat.
Proof. split; reflexivity. Qed.

Example SetCurrentValueUpdatesSelectedItem :
  result ((setCurrentValue (Int 999) ;; getCurrentValue) (test_controller 3))
  = inr (Int 999).
Proof. reflexivity. Qed.

(** * Further properties of the controller *)

Lemma append_nil_r s : s +:+ EmptyString = s.
Proof.
  induction s as [|c s IH]; [reflexivity|]. rewrite append_cons, IH. reflexivity.
Qed.

Lemma append_assoc a b c : (a +:+ b) +:+ c = a +:+ (b +:+ c).
Proof.
  induction a as [|x a IH]; [reflexivity|]. rewrite !append_cons, IH. reflexivity.
Qed.

Lemma formatToWidth_head c tail width :
  size_t.in_range width -> 1 <= width ->
  exists rest, formatToWidth (String c tail) width = String c rest.
Proof.
  intros Hw Hpos.
  destruct (Z.lt_trichotomy (std_string.size (String c tail)) width)
    as [Hlt|[He|Hgt]].
  - rewrite formatToWidth_short by assumption. rewrite append_cons. eauto.
  - rewrite formatToWidth_exact by assumption. eauto.
  - rewrite formatToWidth_long by assumption. unfold std_string.substr0.
    destruct (Z.to_nat width) as [|k] eqn:Hk; [lia|]. cbn. eauto.
Qed.

Section Frames.

Context {TKey TValue : Type} `{!Streamable TKey, !Streamable TValue}.
Context {KeyWidth ValueWidth : Z}.

Local Abbreviation Controller := (LCDDisplayController TKey TValue KeyWidth ValueWidth).
Implicit Type this : Controller.

(** The text [formatRow] has assembled before it pads or truncates. *)
Lemma formatRow_is_formatToWidth this (rowIndex : Z) :
  exists tail,
    formatRow this rowIndex
    = formatToWidth
        (String (if rowIndex =? getNavigatorRowInWindow this
                 then navigatorChar (config this) else " "%char) tail)
        (columns (config this)).
Proof.
  unfold formatRow, std_string.push_back. rewrite append_nil.
  destruct (windowStartIndex this +! rowIndex <? items_size this).
  - destruct (items this !! Z.to_nat (windowStartIndex this +! rowIndex)).
    + rewrite !append_cons, !append_nil. eexists. reflexivity.
    + eexists. reflexivity.
  - rewrite append_cons, append_nil. eexists. reflexivity.
Qed.

Lemma size_formatRow this (rowIndex : Z) :
  size_t.in_range (columns (config this)) ->
  std_string.size (formatRow this rowIndex) = columns (config this).
Proof.
  intros Hc. destruct (formatRow_is_formatToWidth this rowIndex) as [tail ->].
  now apply size_formatToWidth.
Qed.

Lemma frame_lines_lookup this (i : nat) line :
  frame_lines this !! i = Some line ->
  line = formatRow this (Z.of_nat i)
  /\ (i < Z.to_nat (rows (config this)))%nat.
Proof.
  unfold frame_lines. rewrite list_lookup_fmap.
  destruct (seq 0 (Z.to_nat (rows (config this))) !! i) as [j|] eqn:Hj;
    [|discriminate].
  apply lookup_seq in Hj as [-> Hlt]. cbn. intros [= <-]. split; [reflexivity|lia].
Qed.

Lemma frame_well_shaped this :
  size_t.in_range (rows (config this)) ->
  size_t.in_range (columns (config this)) ->
  well_shaped (rows (config this)) (columns (config this)) (frame this).
Proof.
  intros Hr Hc. unfold well_shaped, frame. cbn. split; [|split].
  - unfold frame_lines. rewrite length_map, length_seq.
    unfold size_t.in_range in Hr. lia.
  - reflexivity.
  - apply Forall_lookup. intros i line Hline.
    apply frame_lines_lookup in Hline as [-> _]. now apply size_formatRow.
Qed.

(** X1. On a reachable state, navigateUp moves exactly when
    [selectedIndex > 0]: it then decrements [selectedIndex], sets
    [windowStart] to the new [selectedIndex] when that lies above the
    window and leaves it alone otherwise, returns true and pushes the one
    frame of the new state; at the top it returns false, leaves the state
    as it is and pushes nothing. *)
Theorem navigateUp_spec this :
  reachable this ->
  (0 < selectedItemIndex this ->
     let selected := selectedItemIndex this - 1 in
     let start := if selected <? windowStartIndex this
                  then selected else windowStartIndex this in
     let this' :=
       MkLCDDisplayController (config this) (items this) (renderer this)
         selected start (isSelected this) in
     navigateUp this = (inr true, this', [frame this']))
  /\ (selectedItemIndex this <= 0 -> navigateUp this = (inr false, this, [])).
Proof.
  intros Hreach. apply reachable_sound in Hreach as H.
  rewrite (navigateUp_eq this H). split.
  - intros Hpos. destruct (Z.gtb_spec (selectedItemIndex this) 0); [|lia].
    destruct this; reflexivity.
  - intros Htop. destruct (Z.gtb_spec (selectedItemIndex this) 0); [lia|].
    reflexivity.
Qed.

(** X2. In every reachable state render throws nothing, leaves the
    controller alone and makes exactly one call on the sink: [rows] lines,
    each exactly [columns] characters long, announced with [columns]. *)
Theorem render_pushes_one_well_shaped_frame this :
  reachable this ->
  exists call,
    render this = (inr tt, this, [call])
    /\ well_shaped (rows (config this)) (columns (config this)) call.
Proof.
  intros Hreach. apply reachable_sound in Hreach as H.
  exists (frame this). split.
  - apply render_eq, H.
  - apply frame_well_shaped; apply H.
Qed.

Lemma navigator_row_in_window this :
  sound this -> 1 <= rows (config this) ->
  getNavigatorRowInWindow this = selectedItemIndex this - windowStartIndex this
  /\ 0 <= selectedItemIndex this - windowStartIndex this < rows (config this).
Proof.
  intros H Hrows. unfold getNavigatorRowInWindow.
  pose proof (sound_top this H Hrows). pose proof (sound_bottom this H).
  pose proof (sound_selected this H). pose proof (sound_window_start this H).
  pose proof (sound_size this H). rewrite modulus_value in *.
  unwrap. lia.
Qed.

(** X3. In a reachable state of a display with at least one row and one
    column, the row [selectedIndex - windowStart] lies inside the frame,
    and a pushed line starts with the cursor glyph when it is that row and
    with a space when it is any other row. *)
Theorem cursor_marks_the_selected_row this :
  reachable this ->
  1 <= rows (config this) ->
  1 <= columns (config this) ->
  0 <= selectedItemIndex this - windowStartIndex this < rows (config this)
  /\ forall (i : nat) (line : string),
       frame_lines this !! i = Some line ->
       exists rest,
         line = String (if Z.of_nat i =? selectedItemIndex this - windowStartIndex this
                        then navigatorChar (config this) else " "%char) rest.
Proof.
  intros Hreach Hrows Hcols. apply reachable_sound in Hreach as H.
  destruct (navigator_row_in_window this H Hrows) as [Hrow Hin].
  split; [exact Hin|]. intros i line Hline.
  apply frame_lines_lookup in Hline as [-> _].
  destruct (formatRow_is_formatToWidth this (Z.of_nat i)) as [tail ->].
  rewrite Hrow. apply formatToWidth_head; [apply H | exact Hcols].
Qed.

(** X6. While the store has no more records than the display has rows
    ([canScroll] is false), a reachable state has [windowStart = 0], and
    the cursor row reported by getNavigatorRow is the selected index. *)
Theorem no_scrolling_when_everything_fits this :
  reachable this ->
  canScroll this = false ->
  getWindowStartIndex this = 0
  /\ getNavigatorRow this = getSelectedItemIndex this.
Proof.
  intros Hreach Hfit. apply reachable_sound in Hreach as H.
  unfold canScroll in Hfit. rewrite Z.gtb_ltb in Hfit. apply Z.ltb_ge in Hfit.
  unfold getWindowStartIndex, getNavigatorRow, getSelectedItemIndex,
    getNavigatorRowInWindow.
  pose proof (sound_end this H). pose proof (sound_window_start this H).
  pose proof (sound_selected this H). pose proof (sound_size this H).
  rewrite modulus_value in *.
  assert (Hw : windowStartIndex this = 0) by lia.
  split; [exact Hw|]. rewrite Hw. unwrap. lia.
Qed.

(** X7. In a reachable state of a display with at least one row,
    getNavigatorRow returns [selectedIndex - windowStart] (the
    subtraction does not wrap), a row index between 0 and [rows - 1]. *)
Theorem getNavigatorRow_in_range this :
  reachable this ->
  1 <= rows (config this) ->
  getNavigatorRow this = getSelectedItemIndex this - getWindowStartIndex this
  /\ 0 <= getNavigatorRow this <= rows (config this) - 1.
Proof.
  intros Hreach Hrows. apply reachable_sound in Hreach as H.
  unfold getNavigatorRow, getSelectedItemIndex, getWindowStartIndex.
  destruct (navigator_row_in_window this H Hrows) as [-> Hin]. lia.
Qed.

End Frames.

(** Bring nested appends to the right-nested form. *)
Ltac norm_append :=
  repeat (rewrite append_cons || rewrite append_nil || rewrite append_assoc).

Lemma fill_pos n c :
  1 <= n -> std_string.fill n c = String c (std_string.fill (n - 1) c).
Proof.
  intros Hn. unfold std_string.fill.
  replace (Z.to_nat n) with (S (Z.to_nat (n - 1))) by lia. reflexivity.
Qed.

Lemma fill_nonpos n c : n <= 0 -> std_string.fill n c = EmptyString.
Proof.
  intros Hn. unfold std_string.fill.
  replace (Z.to_nat n) with 0%nat by lia. reflexivity.
Qed.

Section Rows.

Context {TKey TValue : Type} `{!Streamable TKey, !Streamable TValue}.
Context {KeyWidth ValueWidth : Z}.

Local Abbreviation Controller := (LCDDisplayController TKey TValue KeyWidth ValueWidth).
Implicit Type this : Controller.

Lemma requiredWidth_exact :
  0 <= KeyWidth -> 0 <= ValueWidth ->
  1 + KeyWidth + 1 + ValueWidth < size_t.modulus ->
  requiredWidth (KeyWidth := KeyWidth) (ValueWidth := ValueWidth)
  = 1 + KeyWidth + 1 + ValueWidth.
Proof.
  intros Hk Hv Hfit. unfold requiredWidth, getKeyWidth, getValueWidth.
  rewrite modulus_value in Hfit. unwrap. reflexivity.
Qed.

Lemma formatRow_record this (i : nat) item :
  sound this ->
  0 <= KeyWidth -> 0 <= ValueWidth ->
  1 + KeyWidth + 1 + ValueWidth < size_t.modulus ->
  items this !! (Z.to_nat (windowStartIndex this) + i)%nat = Some item ->
  formatRow this (Z.of_nat i)
  = String (if Z.of_nat i =? getNavigatorRowInWindow this
            then navigatorChar (config this) else " "%char)
      (getFormattedKey item
       +:+ String (separatorChar (config this))
             (getFormattedValue item
              +:+ std_string.fill
                    (columns (config this) - (1 + KeyWidth + 1 + ValueWidth)) " ")).
Proof.
  intros H Hk Hv Hfit Hitem.
  pose proof (sound_width this H) as Hwidth.
  rewrite (requiredWidth_exact Hk Hv Hfit) in Hwidth.
  pose proof (sound_window_start this H) as Hws.
  pose proof (sound_size this H) as Hsize.
  pose proof (sound_columns this H) as Hcols.
  apply lookup_lt_Some in Hitem as Hlt.
  assert (Hin : windowStartIndex this + Z.of_nat i < items_size this)
    by (unfold items_size; lia).
  unfold size_t.in_range in *. rewrite modulus_value in *.
  assert (HK : std_string.size (getFormattedKey item) = KeyWidth).
  { apply size_formatToWidth. unfold size_t.in_range. rewrite modulus_value. lia. }
  assert (HV : std_string.size (getFormattedValue item) = ValueWidth).
  { apply size_formatToWidth. unfold size_t.in_range. rewrite modulus_value. lia. }
  unfold formatRow, std_string.push_back. rewrite append_nil. unwrap.
  destruct (Z.ltb_spec (windowStartIndex this + Z.of_nat i) (items_size this));
    [|lia].
  replace (Z.to_nat (windowStartIndex this + Z.of_nat i))
    with (Z.to_nat (windowStartIndex this) + i)%nat by lia.
  rewrite Hitem.
  set (c := if Z.of_nat i =? getNavigatorRowInWindow this
            then navigatorChar (config this) else " "%char).
  norm_append.
  repeat (rewrite size_String || rewrite size_append). rewrite HK, HV.
  change (std_string.size EmptyString) with 0.
  destruct (Z.ltb_spec (1 + (KeyWidth + (1 + ValueWidth))) (columns (config this)))
    as [Hpad|Hexact].
  - unwrap.
    replace (columns (config this) - (1 + (KeyWidth + (1 + ValueWidth))))
      with (columns (config this) - (1 + KeyWidth + 1 + ValueWidth)) by lia.
    reflexivity.
  - destruct (Z.gtb_spec (1 + (KeyWidth + (1 + ValueWidth))) (columns (config this)));
      [lia|].
    rewrite fill_nonpos by lia. rewrite append_nil_r. reflexivity.
Qed.

(** X4. In a reachable state, a pushed line whose row is backed by a
    record is laid out as: the cursor glyph (on the selected row) or a
    space, the record's formatted key, the separator glyph, the record's
    formatted value, then spaces up to [columns]. The record shown on
    row [i] is the one at index [windowStart + i]. *)
Theorem row_shows_the_record_at_window_offset this (i : nat) line item :
  reachable this ->
  0 <= KeyWidth -> 0 <= ValueWidth ->
  1 + KeyWidth + 1 + ValueWidth < size_t.modulus ->
  frame_lines this !! i = Some line ->
  items this !! (Z.to_nat (windowStartIndex this) + i)%nat = Some item ->
  line
  = String (if Z.of_nat i =? selectedItemIndex this - windowStartIndex this
            then navigatorChar (config this) else " "%char)
      (getFormattedKey item
       +:+ String (separatorChar (config this))
             (getFormattedValue item
              +:+ std_string.fill
                    (columns (config this) - (1 + KeyWidth + 1 + ValueWidth)) " ")).
Proof.
  intros Hreach Hk Hv Hfit Hline Hitem. apply reachable_sound in Hreach as H.
  apply frame_lines_lookup in Hline as [-> Hrow].
  assert (Hrows : 1 <= rows (config this)) by lia.
  destruct (navigator_row_in_window this H Hrows) as [<- _].
  now apply formatRow_record.
Qed.

(** X5. In a reachable state over a non-empty store, a pushed line whose
    row lies past the last record ([windowStart + i >= length]) consists
    of exactly [columns] spaces: it carries no cursor and no separator. *)
Theorem rows_past_the_store_are_blank this (i : nat) line :
  reachable this ->
  items this <> [] ->
  frame_lines this !! i = Some line ->
  items_size this <= windowStartIndex this + Z.of_nat i ->
  line = std_string.fill (columns (config this)) " ".
Proof.
  intros Hreach Hne Hline Hpast. apply reachable_sound in Hreach as H.
  apply frame_lines_lookup in Hline as [-> Hrow].
  assert (Hrows : 1 <= rows (config this)) by lia.
  destruct (navigator_row_in_window this H Hrows) as [Hnav Hin].
  pose proof (items_size_pos this Hne) as Hlen.
  pose proof (sound_selected this H) as Hsel.
  pose proof (sound_end this H) as Hend.
  pose proof (sound_window_start this H) as Hws.
  pose proof (sound_size this H) as Hsize.
  pose proof (sound_rows this H) as Hr.
  pose proof (sound_columns this H) as Hcols.
  unfold size_t.in_range in *. rewrite modulus_value in *.
  unfold formatRow, std_string.push_back. rewrite append_nil, Hnav. unwrap.
  destruct (Z.eqb_spec (Z.of_nat i)
              (selectedItemIndex this - windowStartIndex this)); [lia|].
  destruct (Z.ltb_spec (windowStartIndex this + Z.of_nat i) (items_size this));
    [lia|].
  rewrite append_cons, append_nil.
  destruct (Z.gtb_spec (columns (config this)) 1) as [Hwide|Hnarrow].
  - unwrap. rewrite size_String, size_fill.
    destruct (Z.ltb_spec (1 + Z.max 0 (columns (config this) - 1))
                (columns (config this))); [lia|].
    destruct (Z.gtb_spec (1 + Z.max 0 (columns (config this) - 1))
                (columns (config this))); [lia|].
    symmetry. apply fill_pos. lia.
  - rewrite (fill_nonpos 0) by lia. rewrite size_String.
    change (std_string.size EmptyString) with 0.
    destruct (Z.eq_dec (columns (config this)) 0) as [Hzero|Hone].
    + rewrite Hzero. reflexivity.
    + assert (Hc1 : columns (config this) = 1) by lia. rewrite Hc1. reflexivity.
Qed.

End Rows.

Section Calls.

Context {TKey TValue : Type} `{!Streamable TKey, !Streamable TValue}.
Context {KeyWidth ValueWidth : Z}.

Local Abbreviation TDisplayItem := (DisplayItem TKey TValue KeyWidth ValueWidth).
Local Abbreviation Controller := (LCDDisplayController TKey TValue KeyWidth ValueWidth).
Implicit Type this : Controller.

Lemma keys_alter_setValue (v : TValue) (i : nat) (l : list TDisplayItem) :
  map getKey (alter (setValue v) i l) = map getKey l.
Proof.
  revert i. induction l as [|x l IH]; intros [|i]; cbn; try reflexivity.
  f_equal. apply IH.
Qed.

Lemma perform_keeps_store (c : Call) this :
  config (state (perform c this)) = config this
  /\ renderer (state (perform c this)) = renderer this
  /\ map getKey (items (state (perform c this))) = map getKey (items this)
  /\ getItemCount (state (perform c this)) = getItemCount this
  /\ ((forall v, c <> call_setCurrentValue v) ->
      items (state (perform c this)) = items this).
Proof.
  destruct this as [cfg its r sel ws flag].
  destruct c; unfold perform, state, getItemCount, items_size, navigateUp,
    navigateDown, adjustWindow; run; fields; crunch; cbn;
    repeat split; try reflexivity;
    rewrite ?keys_alter_setValue, ?length_alter; try reflexivity;
    intros Hother; exfalso; eapply Hother; reflexivity.
Qed.

(** X8. No call of the public interface changes the configuration, the
    sink, the number of records or any key; and only setCurrentValue
    changes the records at all. *)
Theorem calls_keep_configuration_and_keys (c : Call) this :
  config (state (perform c this)) = config this
  /\ renderer (state (perform c this)) = renderer this
  /\ map getKey (items (state (perform c this))) = map getKey (items this)
  /\ getItemCount (state (perform c this)) = getItemCount this
  /\ ((forall v, c <> call_setCurrentValue v) ->
      items (state (perform c this)) = items this).
Proof. apply perform_keeps_store. Qed.

Lemma selected_lt_size this item :
  0 <= selectedItemIndex this ->
  items this !! Z.to_nat (selectedItemIndex this) = Some item ->
  selectedItemIndex this < items_size this.
Proof.
  intros Hsel Hitem. apply lookup_lt_Some in Hitem. unfold items_size. lia.
Qed.

Lemma selected_record this :
  sound this -> items this <> [] ->
  exists item, items this !! Z.to_nat (selectedItemIndex this) = Some item.
Proof.
  intros H Hne. pose proof (sound_selected this H) as Hsel.
  pose proof (items_size_pos this Hne) as Hlen.
  apply lookup_lt_is_Some. unfold items_size in *. lia.
Qed.

Lemma setCurrentValue_run this item {T : Type} `{!Convertible T TValue}
    (newValue : T) :
  is_null (renderer this) = false ->
  0 <= selectedItemIndex this ->
  items this !! Z.to_nat (selectedItemIndex this) = Some item ->
  setCurrentValue newValue this
  = (inr tt, with_value (convert newValue) this,
     [frame (with_value (convert newValue) this)]).
Proof.
  intros Hr Hsel Hitem. unfold setCurrentValue.
  unfold bind at 1, get. unfold bind at 1.
  rewrite validateItemIndex_passes by now apply (selected_lt_size this item).
  unfold bind at 1, modify. fold (with_value (convert newValue) this).
  rewrite render_eq by (destruct this; exact Hr). reflexivity.
Qed.

Lemma setCurrentValue_fails this {T : Type} `{!Convertible T TValue}
    (newValue : T) :
  items_size this <= selectedItemIndex this ->
  setCurrentValue newValue this = (inl index_error, this, []).
Proof.
  intros Hge. unfold setCurrentValue. unfold bind at 1, get. unfold bind at 1.
  rewrite validateItemIndex_fails by exact Hge. reflexivity.
Qed.

Lemma getCurrentValue_run this item :
  0 <= selectedItemIndex this ->
  items this !! Z.to_nat (selectedItemIndex this) = Some item ->
  getCurrentValue this = (inr (value item), this, []).
Proof.
  intros Hsel Hitem. unfold getCurrentValue.
  unfold bind at 1, get. unfold bind at 1.
  rewrite validateItemIndex_passes by now apply (selected_lt_size this item).
  rewrite Hitem. reflexivity.
Qed.

Lemma getCurrentKey_run this item :
  0 <= selectedItemIndex this ->
  items this !! Z.to_nat (selectedItemIndex this) = Some item ->
  getCurrentKey this = (inr (key item), this, []).
Proof.
  intros Hsel Hitem. unfold getCurrentKey.
  unfold bind at 1, get. unfold bind at 1.
  rewrite validateItemIndex_passes by now apply (selected_lt_size this item).
  rewrite Hitem. reflexivity.
Qed.

Lemma selectItem_run this :
  is_null (renderer this) = false ->
  selectItem this
  = if isSelected this then (inr false, this, [])
    else (inr true, set_isSelected true this, [frame (set_isSelected true this)]).
Proof.
  intros Hr. unfold selectItem, bind at 1, get.
  destruct (isSelected this); [reflexivity|]. cbn [negb].
  unfold bind at 1, modify. unfold bind at 1.
  rewrite render_eq by (destruct this; exact Hr). reflexivity.
Qed.

Lemma deselectItem_run this :
  is_null (renderer this) = false ->
  deselectItem this
  = if isSelected this
    then (inr true, set_isSelected false this, [frame (set_isSelected false this)])
    else (inr false, this, []).
Proof.
  intros Hr. unfold deselectItem, bind at 1, get.
  destruct (isSelected this); [|reflexivity].
  unfold bind at 1, modify. unfold bind at 1.
  rewrite render_eq by (destruct this; exact Hr). reflexivity.
Qed.

Lemma result_bind_ret {A} (m : M Controller A) this a :
  result (m this) = inr a -> result ((m ;; ret tt) this) = inr tt.
Proof.
  unfold result, bind, ret. destruct (m this) as [[[e|a'] s] out]; cbn;
    [discriminate | reflexivity].
Qed.

Lemma perform_completes (c : Call) this :
  sound this ->
  items this <> [] ->
  result (perform c this) = inr tt.
Proof.
  intros H Hne.
  destruct (selected_record this H Hne) as [item Hitem].
  pose proof (sound_selected this H) as [Hsel _].
  pose proof (sound_renderer this H) as Hr.
  destruct c; cbn [perform].
  - rewrite render_eq by exact Hr. reflexivity.
  - apply (result_bind_ret _ _ (selectedItemIndex this >? 0)).
    rewrite navigateUp_eq by exact H.
    destruct (selectedItemIndex this >? 0); reflexivity.
  - apply (result_bind_ret _ _
             (negb (bool_decide (items this = []))
              && (selectedItemIndex this <? items_size this - 1))).
    rewrite navigateDown_eq by exact H.
    destruct (negb (bool_decide (items this = []))
              && (selectedItemIndex this <? items_size this - 1)); reflexivity.
  - apply (result_bind_ret _ _ (negb (isSelected this))).
    rewrite selectItem_run by exact Hr. destruct (isSelected this); reflexivity.
  - apply (result_bind_ret _ _ (isSelected this)).
    rewrite deselectItem_run by exact Hr. destruct (isSelected this); reflexivity.
  - rewrite (setCurrentValue_run this item) by assumption. reflexivity.
  - apply (result_bind_ret _ _ (value item)).
    rewrite (getCurrentValue_run this item) by assumption. reflexivity.
  - apply (result_bind_ret _ _ (key item)).
    rewrite (getCurrentKey_run this item) by assumption. reflexivity.
Qed.

(** X9. Over a non-empty store, no call of the public interface made on a
    reachable state throws or runs into undefined behaviour: every call
    completes. *)
Theorem calls_complete_on_a_non_empty_store (c : Call) this :
  reachable this ->
  items this <> [] ->
  result (perform c this) = inr tt.
Proof.
  intros Hreach Hne. apply perform_completes; [|exact Hne].
  now apply reachable_sound.
Qed.

(** X10. With a sink in place, selectItem and deselectItem report whether
    the armed flag changed and are idempotent: after selectItem the flag
    is set and a second selectItem returns false, changes nothing and
    pushes nothing; likewise for deselectItem; and deselectItem undoes a
    selectItem made on a disarmed controller. *)
Theorem select_and_deselect_are_idempotent this :
  is_null (renderer this) = false ->
  result (selectItem this) = inr (negb (isSelected this))
  /\ result (deselectItem this) = inr (isSelected this)
  /\ isSelected (state (selectItem this)) = true
  /\ isSelected (state (deselectItem this)) = false
  /\ selectItem (state (selectItem this)) = (inr false, state (selectItem this), [])
  /\ deselectItem (state (deselectItem this))
     = (inr false, state (deselectItem this), [])
  /\ (isSelected this = false ->
      state (deselectItem (state (selectItem this))) = this).
Proof.
  intros Hr.
  assert (Hr1 : is_null (renderer (state (selectItem this))) = false).
  { rewrite selectItem_run by exact Hr.
    destruct this as [cfg its r sel ws []]; exact Hr. }
  assert (Hr2 : is_null (renderer (state (deselectItem this))) = false).
  { rewrite deselectItem_run by exact Hr.
    destruct this as [cfg its r sel ws []]; exact Hr. }
  rewrite (selectItem_run (state (selectItem this))) by exact Hr1.
  rewrite (deselectItem_run (state (deselectItem this))) by exact Hr2.
  rewrite (deselectItem_run (state (selectItem this))) by exact Hr1.
  rewrite !selectItem_run, !deselectItem_run by exact Hr.
  destruct this as [cfg its r sel ws []]; cbn; repeat split; try reflexivity;
    discriminate.
Qed.

(** X11. With a record selected and a sink in place, setCurrentValue
    followed by getCurrentValue returns the value just written,
    getCurrentKey still returns the record's key, every other record is
    untouched, and the selection, the window and the armed flag stay as
    they were. *)
Theorem setCurrentValue_then_get this item {T : Type} `{!Convertible T TValue}
    (newValue : T) :
  is_null (renderer this) = false ->
  0 <= selectedItemIndex this ->
  items this !! Z.to_nat (selectedItemIndex this) = Some item ->
  let this' := state (setCurrentValue newValue this) in
  result ((setCurrentValue newValue ;; getCurrentValue) this)
  = inr (convert newValue)
  /\ result ((setCurrentValue newValue ;; getCurrentKey) this) = inr (key item)
  /\ (forall j : nat, j <> Z.to_nat (selectedItemIndex this) ->
        items this' !! j = items this !! j)
  /\ selectedItemIndex this' = selectedItemIndex this
  /\ windowStartIndex this' = windowStartIndex this
  /\ isSelected this' = isSelected this.
Proof.
  intros Hr Hsel Hitem this'. subst this'.
  assert (Hitem' : items (with_value (convert newValue) this)
                     !! Z.to_nat (selectedItemIndex (with_value (convert newValue) this))
                   = Some (setValue (convert newValue) item)).
  { unfold with_value. destruct this; cbn in *.
    rewrite list_lookup_alter_eq, Hitem. reflexivity. }
  assert (Hsel' : 0 <= selectedItemIndex (with_value (convert newValue) this))
    by (destruct this; exact Hsel).
  unfold bind. rewrite (setCurrentValue_run this item) by assumption.
  rewrite (getCurrentValue_run _ _ Hsel' Hitem').
  rewrite (getCurrentKey_run _ _ Hsel' Hitem').
  unfold result, state. cbn [fst snd].
  repeat split; try (destruct this; reflexivity).
  intros j Hj. unfold with_value. destruct this; cbn in *.
  apply list_lookup_alter_ne. congruence.
Qed.

End Calls.

Section Walking.

Context {TKey TValue : Type} `{!Streamable TKey, !Streamable TValue}.
Context {KeyWidth ValueWidth : Z}.

Local Abbreviation Controller := (LCDDisplayController TKey TValue KeyWidth ValueWidth).
Implicit Type this : Controller.

(** The navigation state after navigateDown, on a sound state. *)
Lemma navigateDown_state this :
  sound this ->
  let moves := negb (bool_decide (items this = []))
               && (selectedItemIndex this <? items_size this - 1) in
  let this' := state (navigateDown this) in
  config this' = config this
  /\ items this' = items this
  /\ selectedItemIndex this'
     = (if moves then selectedItemIndex this + 1 else selectedItemIndex this)
  /\ windowStartIndex this'
     = (if moves
           && (selectedItemIndex this + 1
               >=? windowStartIndex this + rows (config this))
        then selectedItemIndex this + 1 - rows (config this) + 1
        else windowStartIndex this).
Proof.
  intros H moves this'. subst moves this'. rewrite navigateDown_eq by exact H.
  destruct (negb (bool_decide (items this = []))
            && (selectedItemIndex this <? items_size this - 1));
    destruct this as [cfg its r sel ws flag]; cbn; repeat split.
Qed.

(** The navigation state after navigateUp, on a sound state. *)
Lemma navigateUp_state this :
  sound this ->
  let moves := selectedItemIndex this >? 0 in
  let this' := state (navigateUp this) in
  config this' = config this
  /\ items this' = items this
  /\ selectedItemIndex this'
     = (if moves then selectedItemIndex this - 1 else selectedItemIndex this)
  /\ windowStartIndex this'
     = (if moves && (selectedItemIndex this - 1 <? windowStartIndex this)
        then selectedItemIndex this - 1
        else windowStartIndex this).
Proof.
  intros H moves this'. subst moves this'. rewrite navigateUp_eq by exact H.
  destruct (selectedItemIndex this >? 0);
    destruct this as [cfg its r sel ws flag]; cbn; repeat split.
Qed.

(** X12. Navigation round trip. On a reachable state, a navigateDown
    that moves followed by navigateUp, and a navigateUp that moves
    followed by navigateDown, both come back to the record that was
    selected, and the store is the same. *)
Theorem navigation_round_trip this :
  reachable this ->
  (items this <> [] /\ selectedItemIndex this < items_size this - 1 ->
     let back := state (navigateUp (state (navigateDown this))) in
     selectedItemIndex back = selectedItemIndex this
     /\ items back = items this)
  /\ (0 < selectedItemIndex this ->
     let back := state (navigateDown (state (navigateUp this))) in
     selectedItemIndex back = selectedItemIndex this
     /\ items back = items this).
Proof.
  intros Hreach. apply reachable_sound in Hreach as H.
  pose proof (sound_selected this H) as Hsel. split.
  - intros [Hne Hlt] back. subst back.
    pose proof (sound_navigateDown this H) as H'.
    destruct (navigateDown_state this H) as (_ & Hi & Hs & _).
    destruct (navigateUp_state _ H') as (_ & Hi' & Hs' & _).
    rewrite Hs', Hi', Hs, Hi.
    rewrite (bool_decide_eq_false_2 _ Hne). cbn [negb andb].
    destruct (Z.ltb_spec (selectedItemIndex this) (items_size this - 1)); [|lia].
    destruct (Z.gtb_spec (selectedItemIndex this + 1) 0); [|lia].
    split; [lia | reflexivity].
  - intros Hpos back. subst back.
    pose proof (sound_navigateUp this H) as H'.
    destruct (navigateUp_state this H) as (_ & Hi & Hs & _).
    destruct (navigateDown_state _ H') as (_ & Hi' & Hs' & _).
    unfold items_size in *. rewrite Hs', Hi', Hs, Hi.
    assert (Hne : items this <> []).
    { intros Hnil. rewrite Hnil in Hsel. cbn in Hsel. lia. }
    rewrite (bool_decide_eq_false_2 _ Hne). cbn [negb andb].
    destruct (Z.gtb_spec (selectedItemIndex this) 0); [|lia].
    destruct (Z.ltb_spec (selectedItemIndex this - 1)
                (Z.of_nat (length (items this)) - 1)); [|lia].
    split; [lia | reflexivity].
Qed.

(** X13. On a reachable state of a display with at least one row, one
    navigation call moves the selection by at most one record and the
    window by at most one line; the window moves only when navigateDown
    leaves from the bottom row of the window (it then advances by one) or
    navigateUp leaves from its top row (it then goes back by one). *)
Theorem window_scrolls_one_line_at_a_time (m : Move) this :
  reachable this ->
  1 <= rows (config this) ->
  let this' := state (navigate m this) in
  - 1 <= selectedItemIndex this' - selectedItemIndex this <= 1
  /\ (windowStartIndex this' = windowStartIndex this
      \/ (m = MoveDown
          /\ selectedItemIndex this = windowStartIndex this + rows (config this) - 1
          /\ windowStartIndex this' = windowStartIndex this + 1)
      \/ (m = MoveUp
          /\ selectedItemIndex this = windowStartIndex this
          /\ windowStartIndex this' = windowStartIndex this - 1)).
Proof.
  intros Hreach Hrows this'. subst this'. apply reachable_sound in Hreach as H.
  pose proof (sound_top this H Hrows) as Htop.
  pose proof (sound_bottom this H) as Hbot.
  destruct m; cbn [navigate].
  - destruct (navigateUp_state this H) as (_ & _ & -> & ->).
    destruct (selectedItemIndex this >? 0); cbn [andb]; [|split; [lia|auto]].
    destruct (Z.ltb_spec (selectedItemIndex this - 1) (windowStartIndex this)).
    + split; [lia|]. right. right. repeat split; lia.
    + split; [lia|auto].
  - destruct (navigateDown_state this H) as (_ & _ & -> & ->).
    destruct (negb (bool_decide (items this = []))
              && (selectedItemIndex this <? items_size this - 1));
      cbn [andb]; [|split; [lia|auto]].
    destruct (Z.geb_spec (selectedItemIndex this + 1)
                (windowStartIndex this + rows (config this))).
    + split; [lia|]. right. left. repeat split; lia.
    + split; [lia|auto].
Qed.

Lemma navigate_times_reachable (m : Move) (n : nat) this :
  reachable this -> reachable (navigate_times m n this).
Proof.
  revert this. induction n as [|n IH]; intros this Hreach; [exact Hreach|].
  cbn [navigate_times]. apply IH. destruct m; cbn [navigate].
  - rewrite <- (state_bind_ret navigateUp this).
    apply (reachable_call this call_navigateUp Hreach).
  - rewrite <- (state_bind_ret navigateDown this).
    apply (reachable_call this call_navigateDown Hreach).
Qed.

Lemma down_walk_closed_form (n : nat) this :
  sound this -> 1 <= rows (config this) ->
  let this' := navigate_times MoveDown n this in
  selectedItemIndex this'
  = Z.min (selectedItemIndex this + Z.of_nat n) (Z.max (items_size this - 1) 0)
  /\ windowStartIndex this'
     = Z.max (windowStartIndex this)
             (selectedItemIndex this' - rows (config this) + 1)
  /\ items this' = items this.
Proof.
  revert this. induction n as [|n IH]; intros this H Hrows.
  - cbn. pose proof (sound_selected this H). pose proof (sound_bottom this H).
    repeat split; lia.
  - cbn [navigate_times navigate].
    pose proof (sound_navigateDown this H) as H'.
    destruct (navigateDown_state this H) as (Hc & Hi & Hs & Hw).
    assert (Hsize : items_size (state (navigateDown this)) = items_size this)
      by (unfold items_size; rewrite Hi; reflexivity).
    specialize (IH (state (navigateDown this)) H').
    rewrite Hc, Hsize, Hi in IH. destruct (IH Hrows) as (IHs & IHw & IHi).
    cbn zeta in *. rewrite IHw, IHs, Hs, Hw. split; [|split; [|exact IHi]].
    + pose proof (sound_selected this H).
      destruct (decide (items this = [])) as [Hnil|Hne].
      * rewrite (bool_decide_eq_true_2 _ Hnil). cbn [negb andb].
        rewrite (items_size_nil this Hnil) in *. lia.
      * rewrite (bool_decide_eq_false_2 _ Hne). cbn [negb andb].
        pose proof (items_size_pos this Hne).
        destruct (Z.ltb_spec (selectedItemIndex this) (items_size this - 1)); lia.
    + pose proof (sound_selected this H). pose proof (sound_bottom this H).
      destruct (decide (items this = [])) as [Hnil|Hne].
      * rewrite (bool_decide_eq_true_2 _ Hnil). cbn [negb andb].
        rewrite (items_size_nil this Hnil) in *. lia.
      * rewrite (bool_decide_eq_false_2 _ Hne). cbn [negb andb].
        pose proof (items_size_pos this Hne).
        destruct (Z.ltb_spec (selectedItemIndex this) (items_size this - 1));
          cbn [andb]; [|lia].
        destruct (Z.geb_spec (selectedItemIndex this + 1)
                    (windowStartIndex this + rows (config this))); lia.
Qed.

Lemma up_walk_closed_form (n : nat) this :
  sound this -> 1 <= rows (config this) ->
  let this' := navigate_times MoveUp n this in
  selectedItemIndex this' = Z.max 0 (selectedItemIndex this - Z.of_nat n)
  /\ windowStartIndex this'
     = Z.min (windowStartIndex this) (selectedItemIndex this')
  /\ items this' = items this.
Proof.
  revert this. induction n as [|n IH]; intros this H Hrows.
  - cbn. pose proof (sound_selected this H). pose proof (sound_top this H Hrows).
    repeat split; lia.
  - cbn [navigate_times navigate].
    pose proof (sound_navigateUp this H) as H'.
    destruct (navigateUp_state this H) as (Hc & Hi & Hs & Hw).
    specialize (IH (state (navigateUp this)) H'). rewrite Hc in IH.
    destruct (IH Hrows) as (IHs & IHw & IHi).
    cbn zeta in *. rewrite IHw, IHs, Hs, Hw, IHi, Hi.
    pose proof (sound_selected this H). pose proof (sound_top this H Hrows).
    split; [|split; [|reflexivity]].
    + destruct (Z.gtb_spec (selectedItemIndex this) 0); lia.
    + destruct (Z.gtb_spec (selectedItemIndex this) 0); cbn [andb]; [|lia].
      destruct (Z.ltb_spec (selectedItemIndex this - 1) (windowStartIndex this));
        lia.
Qed.

(** X14. Walking down. From a reachable state of a display with at
    least one row, [n] calls of navigateDown in a row lead to selected
    index [min(selectedIndex + n, length - 1)] (0 for an empty store) and
    to window start [max(windowStart, selectedIndex' - rows + 1)]: the
    window advances just enough to keep the selection on its bottom row.
    From the initial state that is [max(0, selectedIndex' - rows + 1)]. *)
Theorem walking_down (n : nat) this :
  reachable this ->
  1 <= rows (config this) ->
  let this' := navigate_times MoveDown n this in
  selectedItemIndex this'
  = Z.min (selectedItemIndex this + Z.of_nat n) (Z.max (items_size this - 1) 0)
  /\ windowStartIndex this'
     = Z.max (windowStartIndex this)
             (selectedItemIndex this' - rows (config this) + 1)
  /\ items this' = items this.
Proof.
  intros Hreach Hrows. apply down_walk_closed_form; [|exact Hrows].
  now apply reachable_sound.
Qed.

(** X23. Walking up. From a reachable state of a display with at least
    one row, [n] calls of navigateUp in a row lead to selected index
    [max(0, selectedIndex - n)] and to window start
    [min(windowStart, selectedIndex')]: the window goes back just enough
    to keep the selection on its top row, and [selectedIndex] calls bring
    both back to 0. *)
Theorem walking_up (n : nat) this :
  reachable this ->
  1 <= rows (config this) ->
  let this' := navigate_times MoveUp n this in
  selectedItemIndex this' = Z.max 0 (selectedItemIndex this - Z.of_nat n)
  /\ windowStartIndex this'
     = Z.min (windowStartIndex this) (selectedItemIndex this')
  /\ items this' = items this
  /\ (selectedItemIndex this <= Z.of_nat n ->
      selectedItemIndex this' = 0 /\ windowStartIndex this' = 0).
Proof.
  intros Hreach Hrows this'. subst this'. apply reachable_sound in Hreach as H.
  destruct (up_walk_closed_form n this H Hrows) as (Hs & Hw & Hi).
  cbn zeta in *.
  pose proof (sound_window_start this H).
  repeat split; try assumption; intros; lia.
Qed.

End Walking.

(** * Further properties of the items and of the inventory controller *)

(** X15. The numeral of a [uint8_t] value has between one and three
    characters, so a value field of width 3 or more never truncates it:
    the formatted value of an inventory record starts with the whole
    number. (An [int8_t] value can need four: -128.) *)
Theorem uint8_values_are_never_truncated :
  (forall v : uint8_t, uint8_ok v ->
     1 <= std_string.size (toString v) <= 3)
  /\ (forall (TKey : Type) `{!Streamable TKey} (KeyWidth ValueWidth : Z)
        (item : DisplayItem TKey uint8_t KeyWidth ValueWidth),
      uint8_ok (value item) ->
      size_t.in_range ValueWidth -> 3 <= ValueWidth ->
      std_string.starts_with (toString (value item)) (getFormattedValue item)
      /\ std_string.size (getFormattedValue item) = ValueWidth)
  /\ std_string.size (toString (I8 (-128))) = 4.
Proof.
  assert (Hsize : forall v : uint8_t, uint8_ok v ->
            1 <= std_string.size (toString v) <= 3).
  { intros [z] Hz. unfold uint8_ok in Hz. cbn [u8] in Hz.
    assert (Hfit : fits_in_three U8 z = true).
    { apply (forallb_interval (fits_in_three U8) 0 256); [|lia].
      vm_compute. reflexivity. }
    unfold fits_in_three in Hfit. apply andb_prop in Hfit as [Hlo Hhi].
    apply Z.leb_le in Hlo, Hhi. lia. }
  split; [exact Hsize|]. split; [|reflexivity].
  intros TKey SK KeyWidth ValueWidth item Hok Hrange Hwide.
  pose proof (Hsize _ Hok) as Hlen. unfold getFormattedValue.
  destruct (formatToWidth_fits (toString (value item)) ValueWidth Hrange)
    as [Hs Hp]; [lia|]. split; assumption.
Qed.

Lemma alter_fixes {A} (f : A -> A) (i : nat) (l : list A) x :
  l !! i = Some x -> f x = x -> alter f i l = l.
Proof.
  revert i. induction l as [|y l IH]; intros [|i] Hl Hf; cbn in *;
    try discriminate.
  - injection Hl as ->. rewrite Hf. reflexivity.
  - f_equal. now apply IH.
Qed.

Section InventoryRoundTrip.

Context {TKey : Type} `{!Streamable TKey}.
Context {KeyWidth ValueWidth : Z}.

Local Abbreviation Controller := (LCDDisplayController TKey uint8_t KeyWidth ValueWidth).
Implicit Type this : Controller.

Lemma incrementValue_run this item :
  is_null (renderer this) = false ->
  0 <= selectedItemIndex this ->
  items this !! Z.to_nat (selectedItemIndex this) = Some item ->
  uint8_ok (value item) ->
  Inventory.incrementValue (Inventory.MkLCDInventoryController this)
  = (inr tt,
     Inventory.MkLCDInventoryController
       (with_value (U8 ((u8 (value item) + 1) mod 256)) this),
     [frame (with_value (U8 ((u8 (value item) + 1) mod 256)) this)]).
Proof.
  intros Hr Hsel Hitem Hok. unfold uint8_ok in Hok.
  unfold Inventory.incrementValue, Inventory.on_displayController, bind.
  cbn [Inventory.displayController].
  rewrite (getCurrentValue_run this item) by assumption.
  rewrite (setCurrentValue_run this item) by assumption.
  replace (convert (Convertible := narrow) (add_int (value item) (Int 1)))
    with (U8 ((u8 (value item) + 1) mod 256)); [reflexivity|].
  unfold convert, narrow, add_int, Arithmetic_uint8_t, int_to_uint8, int_add,
    uint8_to_int, int_norm. cbn [int_val]. f_equal. f_equal.
  rewrite Z.mod_small by lia. lia.
Qed.

Lemma decrementValue_run this item :
  is_null (renderer this) = false ->
  0 <= selectedItemIndex this ->
  items this !! Z.to_nat (selectedItemIndex this) = Some item ->
  uint8_ok (value item) ->
  Inventory.decrementValue (Inventory.MkLCDInventoryController this)
  = (inr tt,
     Inventory.MkLCDInventoryController
       (with_value (U8 ((u8 (value item) - 1) mod 256)) this),
     [frame (with_value (U8 ((u8 (value item) - 1) mod 256)) this)]).
Proof.
  intros Hr Hsel Hitem Hok. unfold uint8_ok in Hok.
  unfold Inventory.decrementValue, Inventory.on_displayController, bind.
  cbn [Inventory.displayController].
  rewrite (getCurrentValue_run this item) by assumption.
  rewrite (setCurrentValue_run this item) by assumption.
  replace (convert (Convertible := narrow) (sub_int (value item) (Int 1)))
    with (U8 ((u8 (value item) - 1) mod 256)); [reflexivity|].
  unfold convert, narrow, sub_int, Arithmetic_uint8_t, int_to_uint8, int_sub,
    uint8_to_int, int_norm. cbn [int_val]. f_equal. f_equal.
  rewrite Z.mod_small by lia. lia.
Qed.

Lemma with_value_facts (v : uint8_t) this item :
  items this !! Z.to_nat (selectedItemIndex this) = Some item ->
  is_null (renderer (with_value v this)) = is_null (renderer this)
  /\ selectedItemIndex (with_value v this) = selectedItemIndex this
  /\ items (with_value v this) !! Z.to_nat (selectedItemIndex (with_value v this))
     = Some (setValue v item).
Proof.
  intros Hitem. unfold with_value. destruct this; cbn in *.
  rewrite list_lookup_alter_eq, Hitem. repeat split.
Qed.

Lemma with_value_back (v w : uint8_t) this item :
  items this !! Z.to_nat (selectedItemIndex this) = Some item ->
  value item = w ->
  with_value w (with_value v this) = this.
Proof.
  intros Hitem Hw. unfold with_value, set_items.
  destruct this as [cfg its r sel ws flag].
  cbn in *. f_equal. rewrite list_alter_alter_eq.
  apply (alter_fixes _ _ _ item Hitem). subst w. destruct item; reflexivity.
Qed.

(** X16. With a record selected and a sink in place, incrementValue
    followed by decrementValue, and decrementValue followed by
    incrementValue, both complete, push two frames and leave the inventory
    controller exactly as it was: the wrap-around at 255 and at 0 is
    undone by the opposite step. *)
Theorem increment_and_decrement_undo_each_other this item :
  is_null (renderer this) = false ->
  0 <= selectedItemIndex this ->
  items this !! Z.to_nat (selectedItemIndex this) = Some item ->
  uint8_ok (value item) ->
  let controller := Inventory.MkLCDInventoryController this in
  let up_down := (Inventory.incrementValue ;; Inventory.decrementValue) controller in
  let down_up := (Inventory.decrementValue ;; Inventory.incrementValue) controller in
  result up_down = inr tt /\ state up_down = controller
  /\ length (pushed up_down) = 2%nat /\ last (pushed up_down) = Some (frame this)
  /\ result down_up = inr tt /\ state down_up = controller
  /\ length (pushed down_up) = 2%nat /\ last (pushed down_up) = Some (frame this).
Proof.
  intros Hr Hsel Hitem Hok controller up_down down_up.
  subst up_down down_up controller. unfold uint8_ok in Hok.
  assert (Hup : ((u8 (value item) + 1) mod 256 - 1) mod 256 = u8 (value item)).
  { destruct (Z.eq_dec (u8 (value item)) 255) as [->|]; [reflexivity|].
    rewrite (Z.mod_small (u8 (value item) + 1)) by lia.
    rewrite Z.mod_small by lia. lia. }
  assert (Hdown : ((u8 (value item) - 1) mod 256 + 1) mod 256 = u8 (value item)).
  { destruct (Z.eq_dec (u8 (value item)) 0) as [->|]; [reflexivity|].
    rewrite (Z.mod_small (u8 (value item) - 1)) by lia.
    rewrite Z.mod_small by lia. lia. }
  assert (Heta : U8 (u8 (value item)) = value item) by (destruct (value item); reflexivity).
  unfold bind.
  rewrite (incrementValue_run this item) by assumption.
  rewrite (decrementValue_run this item) by assumption.
  set (v1 := U8 ((u8 (value item) + 1) mod 256)).
  set (v2 := U8 ((u8 (value item) - 1) mod 256)).
  destruct (with_value_facts v1 this item Hitem) as (Hr1 & Hs1 & Hi1).
  destruct (with_value_facts v2 this item Hitem) as (Hr2 & Hs2 & Hi2).
  rewrite (decrementValue_run (with_value v1 this) (setValue v1 item));
    [| congruence | congruence | exact Hi1
     | unfold uint8_ok; cbn; apply Z.mod_pos_bound; lia].
  rewrite (incrementValue_run (with_value v2 this) (setValue v2 item));
    [| congruence | congruence | exact Hi2
     | unfold uint8_ok; cbn; apply Z.mod_pos_bound; lia].
  cbn [setValue value u8 v1 v2]. rewrite Hup, Hdown, Heta.
  rewrite !(with_value_back _ (value item) this item Hitem eq_refl).
  unfold result, state, pushed. cbn. repeat split.
Qed.

(** X17. On an empty store, or whenever [selectedIndex >= length],
    incrementValue and decrementValue throw the out-of-range error of
    getCurrentValue; the inventory controller is left exactly as it was
    and nothing is pushed to the sink. *)
Theorem increment_on_nothing_is_an_index_error this :
  0 <= selectedItemIndex this ->
  items this = [] \/ items_size this <= selectedItemIndex this ->
  let controller := Inventory.MkLCDInventoryController this in
  Inventory.incrementValue controller = (inl index_error, controller, [])
  /\ Inventory.decrementValue controller = (inl index_error, controller, []).
Proof.
  intros Hsel Hcase controller. subst controller.
  assert (Hge : items_size this <= selectedItemIndex this).
  { destruct Hcase as [Hnil|Hge]; [|exact Hge].
    rewrite (items_size_nil this Hnil). exact Hsel. }
  assert (Hget : getCurrentValue this = (inl index_error, this, [])).
  { unfold getCurrentValue. unfold bind at 1, get. unfold bind at 1.
    rewrite validateItemIndex_fails by exact Hge. reflexivity. }
  unfold Inventory.incrementValue, Inventory.decrementValue,
    Inventory.on_displayController, bind.
  cbn [Inventory.displayController]. rewrite Hget. split; reflexivity.
Qed.

End InventoryRoundTrip.

(** * At most one frame per call *)

Section Pushes.

Context {TKey TValue : Type} `{!Streamable TKey, !Streamable TValue}.
Context {KeyWidth ValueWidth : Z}.

Local Abbreviation Controller := (LCDDisplayController TKey TValue KeyWidth ValueWidth).
Implicit Type this : Controller.

Lemma pushed_bind_ret {A} (m : M Controller A) this :
  pushed ((m ;; ret tt) this) = pushed (m this).
Proof.
  unfold pushed, bind, ret. destruct (m this) as [[[e|a] s] out]; cbn;
    rewrite ?app_nil_r; reflexivity.
Qed.

Lemma sound_frame_well_shaped this :
  sound this ->
  well_shaped (rows (config this)) (columns (config this)) (frame this).
Proof. intros H. apply frame_well_shaped; apply H. Qed.

(** What a call pushes on a sound state: nothing, or the frame of the
    state it ends in. *)
Lemma perform_pushed (c : Call) this :
  sound this ->
  pushed (perform c this) = []
  \/ pushed (perform c this) = [frame (state (perform c this))].
Proof.
  intros H. pose proof (sound_renderer this H) as Hr.
  destruct c; cbn [perform]; rewrite ?pushed_bind_ret, ?state_bind_ret.
  - rewrite render_eq by exact Hr. right. reflexivity.
  - rewrite navigateUp_eq by exact H.
    destruct (selectedItemIndex this >? 0); [right|left]; reflexivity.
  - rewrite navigateDown_eq by exact H.
    destruct (negb (bool_decide (items this = []))
              && (selectedItemIndex this <? items_size this - 1));
      [right|left]; reflexivity.
  - rewrite selectItem_run by exact Hr.
    destruct (isSelected this); [left|right]; reflexivity.
  - rewrite deselectItem_run by exact Hr.
    destruct (isSelected this); [right|left]; reflexivity.
  - pose proof (sound_selected this H) as [Hsel _].
    destruct (items this !! Z.to_nat (selectedItemIndex this)) as [item|] eqn:Hitem.
    + rewrite (setCurrentValue_run this item) by assumption. right. reflexivity.
    + apply lookup_ge_None in Hitem.
      rewrite setCurrentValue_fails by (unfold items_size; lia).
      left. reflexivity.
  - left. unfold getCurrentValue, validateItemIndex, pushed; run.
    crunch; reflexivity.
  - left. unfold getCurrentKey, validateItemIndex, pushed; run.
    crunch; reflexivity.
Qed.

(** X18. On a reachable state every call of the public interface makes
    at most one call on the sink, and what it pushes is the frame of the
    state the call ends in: [rows] lines of exactly [columns] characters. *)
Theorem every_call_pushes_at_most_one_frame (c : Call) this :
  reachable this ->
  (pushed (perform c this) = []
   \/ pushed (perform c this) = [frame (state (perform c this))])
  /\ Forall (well_shaped (rows (config this)) (columns (config this)))
       (pushed (perform c this)).
Proof.
  intros Hreach. apply reachable_sound in Hreach as H.
  pose proof (sound_perform c this H) as H'.
  pose proof (sound_frame_well_shaped _ H') as Hshape.
  assert (Hcfg : config (state (perform c this)) = config this).
  { destruct (perform_keeps_store c this) as [Hc _]. exact Hc. }
  rewrite Hcfg in Hshape.
  destruct (perform_pushed c this H) as [Hnone|Hone].
  - split; [left; exact Hnone|]. rewrite Hnone. constructor.
  - split; [right; exact Hone|]. rewrite Hone. constructor; [exact Hshape|constructor].
Qed.

End Pushes.

(** * The console input listener and the main loop *)

Lemma same_command_eq a b : same_command a b = true -> a = b.
Proof. destruct a, b; cbn; congruence. Qed.

Lemma charToCommand_checked (c : ascii) :
  same_command (charToCommand c) (charToCommand (to_lower c))
  && Bool.eqb (is_no_command (charToCommand c)) (negb (is_command_key c))
  = true.
Proof. destruct c as [[] [] [] [] [] [] [] []]; vm_compute; reflexivity. Qed.

Lemma charToCommand_none (c : ascii) :
  is_command_key c = false -> charToCommand c = NavigationCommand.None.
Proof.
  intros Hkey. pose proof (charToCommand_checked c) as Hc.
  apply andb_prop in Hc as [_ Hc]. rewrite Hkey in Hc. cbn in Hc.
  apply Bool.eqb_prop in Hc.
  destruct (charToCommand c); cbn in Hc; congruence.
Qed.

(** X19. charToCommand does not tell upper case from lower case, and it
    yields a command other than None exactly for the six letters w, s,
    e, q, d, a in either case; every other character, the x that the help
    text announces as Exit included, yields None. *)
Theorem charToCommand_keys (c : ascii) :
  charToCommand c = charToCommand (to_lower c)
  /\ (charToCommand c <> NavigationCommand.None <-> is_command_key c = true)
  /\ charToCommand "x" = NavigationCommand.None
  /\ charToCommand "X" = NavigationCommand.None.
Proof.
  pose proof (charToCommand_checked c) as Hc.
  apply andb_prop in Hc as [Hsame Hnone].
  apply same_command_eq in Hsame. apply Bool.eqb_prop in Hnone.
  split; [exact Hsame|]. split; [|split; reflexivity].
  destruct (is_command_key c); cbn in Hnone; split; intros Hx;
    try reflexivity; try discriminate.
  - intros Heq. rewrite Heq in Hnone. discriminate.
  - destruct (charToCommand c); cbn in Hnone; try discriminate.
    exfalso. apply Hx. reflexivity.
Qed.

(** A listener that is not listening (as built, or after
    stopListening) answers None to pollCommand and to waitForCommand
    without waiting and without taking a key. A listening one takes
    exactly the oldest pending key and maps it with charToCommand; on an
    empty keyboard pollCommand answers None at once while waitForCommand
    keeps waiting. *)
Lemma listener_reads_only_while_listening
    (this : ConsoleInputListener) (kb : keyboard) (c : ascii) :
  (isListening this = false ->
     pollCommand this kb = (NavigationCommand.None, kb)
     /\ waitForCommand this kb = Some (NavigationCommand.None, kb))
  /\ isListening ConsoleInputListener_new = false
  /\ isListening (stopListening this) = false
  /\ isListening (startListening this) = true
  /\ (isListening this = true ->
     pollCommand this (c :: kb) = (charToCommand c, kb)
     /\ waitForCommand this (c :: kb) = Some (charToCommand c, kb)
     /\ pollCommand this [] = (NavigationCommand.None, [])
     /\ waitForCommand this [] = None).
Proof.
  unfold isListening, pollCommand, waitForCommand.
  destruct this as [[]]; cbn; repeat split; intros; try discriminate; reflexivity.
Qed.

(** X20. A key that is not one of the twelve command keys does nothing
    in the main loop: the command it maps to is dispatched without
    touching the controller and without pushing a frame. *)
Theorem other_keys_do_nothing (c : ascii)
    (controller : Inventory.LCDInventoryController) :
  is_command_key c = false ->
  dispatch (charToCommand c) controller = (inr tt, controller, []).
Proof. intros Hkey. rewrite (charToCommand_none c Hkey). reflexivity. Qed.

Section MainLoop.

Local Abbreviation Controller := (LCDDisplayController string uint8_t 11 3).
Local Abbreviation Inventory_ := (Inventory.LCDInventoryController
  (TKey := string) (TValue := uint8_t) (KeyWidth := 11) (ValueWidth := 3)).

Lemma on_displayController_bind_ret {A} (m : M Controller A) (c : Controller) :
  (Inventory.on_displayController m ;; ret tt) (Inventory.MkLCDInventoryController c)
  = wrapped ((m ;; ret tt) c).
Proof.
  unfold wrapped, bind, ret, Inventory.on_displayController.
  cbn [Inventory.displayController].
  destruct (m c) as [[[e|a] s] out]; reflexivity.
Qed.

(** Every command but None amounts to one call on the display controller. *)
Lemma dispatch_as_call (command : NavigationCommand.t) (c : Controller) :
  sound c -> items c <> [] ->
  command <> NavigationCommand.None ->
  exists k : Call,
    dispatch command (Inventory.MkLCDInventoryController c)
    = wrapped (perform k c).
Proof.
  intros H Hne Hcmd.
  destruct (selected_record c H Hne) as [item Hitem].
  pose proof (sound_selected c H) as [Hsel _].
  pose proof (sound_renderer c H) as Hr.
  destruct command; cbn [dispatch]; try congruence.
  - exists call_navigateUp. apply on_displayController_bind_ret.
  - exists call_navigateDown. apply on_displayController_bind_ret.
  - exists call_selectItem. apply on_displayController_bind_ret.
  - exists call_deselectItem. apply on_displayController_bind_ret.
  - exists (call_setCurrentValue
              (convert (Convertible := narrow) (add_int (value item) (Int 1)))).
    unfold Inventory.incrementValue, Inventory.on_displayController, bind, wrapped.
    cbn [Inventory.displayController perform].
    rewrite (getCurrentValue_run c item) by assumption.
    rewrite !(setCurrentValue_run c item) by assumption. reflexivity.
  - exists (call_setCurrentValue
              (convert (Convertible := narrow) (sub_int (value item) (Int 1)))).
    unfold Inventory.decrementValue, Inventory.on_displayController, bind, wrapped.
    cbn [Inventory.displayController perform].
    rewrite (getCurrentValue_run c item) by assumption.
    rewrite !(setCurrentValue_run c item) by assumption. reflexivity.
Qed.

(** One dispatched command on a sound controller over a non-empty store:
    it completes, keeps the controller sound and the store non-empty, and
    pushes at most one frame, of the configured shape. *)
Lemma dispatch_step (command : NavigationCommand.t) (c : Controller) :
  sound c -> items c <> [] ->
  exists c' out,
    dispatch command (Inventory.MkLCDInventoryController c)
    = (inr tt, Inventory.MkLCDInventoryController c', out)
    /\ sound c' /\ items c' <> [] /\ config c' = config c
    /\ (length out <= 1)%nat
    /\ Forall (well_shaped (rows (config c)) (columns (config c))) out.
Proof.
  intros H Hne.
  destruct (decide (is_no_command command = true)) as [Hnone|Hsome].
  { destruct command; try discriminate. exists c, []. cbn [dispatch].
    split; [reflexivity|]. split; [exact H|]. split; [exact Hne|].
    split; [reflexivity|]. split; [cbn; lia | constructor]. }
  assert (Hcmd : command <> NavigationCommand.None)
    by (intros ->; apply Hsome; reflexivity).
  destruct (dispatch_as_call command c H Hne Hcmd) as [k ->].
  pose proof (perform_completes k c H Hne) as Hres.
  pose proof (sound_perform k c H) as H'.
  destruct (perform_keeps_store k c) as (Hcfg & _ & _ & Hcount & _).
  pose proof (perform_pushed k c H) as Hpush.
  pose proof (sound_frame_well_shaped _ H') as Hshape. rewrite Hcfg in Hshape.
  destruct (perform k c) as [[r c'] out] eqn:Hrun.
  unfold result, state, pushed in *. cbn [fst snd] in *. subst r.
  exists c', out. cbn [wrapped]. split; [reflexivity|].
  split; [exact H'|]. split.
  { intros Hnil. unfold getItemCount, items_size in Hcount.
    rewrite Hnil in Hcount. destruct (items c); [congruence|discriminate]. }
  split; [exact Hcfg|].
  destruct Hpush as [->| ->].
  - split; [cbn; lia | constructor].
  - split; [cbn; lia | constructor; [exact Hshape | constructor]].
Qed.

Lemma main_loop_runs (rounds : nat) (kb : keyboard) (c : Controller) :
  sound c -> items c <> [] ->
  exists c' out,
    main_loop rounds (startListening ConsoleInputListener_new) kb
      (Inventory.MkLCDInventoryController c)
    = (inr tt, Inventory.MkLCDInventoryController c', out)
    /\ (length out <= rounds)%nat
    /\ Forall (well_shaped (rows (config c)) (columns (config c))) out.
Proof.
  revert kb c. induction rounds as [|rounds IH]; intros kb c H Hne.
  - exists c, []. cbn [main_loop].
    split; [reflexivity|]. split; [cbn; lia | constructor].
  - cbn [main_loop]. destruct kb as [|key kb].
    + exists c, []. cbn.
      split; [reflexivity|]. split; [lia | constructor].
    + change (waitForCommand (startListening ConsoleInputListener_new) (key :: kb))
        with (Some (charToCommand key, kb)). cbn iota.
      destruct (dispatch_step (charToCommand key) c H Hne)
        as (c1 & out1 & Hrun1 & H1 & Hne1 & Hcfg1 & Hlen1 & Hshape1).
      destruct (IH kb c1 H1 Hne1) as (c2 & out2 & Hrun2 & Hlen2 & Hshape2).
      rewrite Hcfg1 in Hshape2.
      exists c2, (out1 ++ out2). unfold bind. rewrite Hrun1, Hrun2.
      split; [reflexivity|]. split.
      * rewrite length_app. lia.
      * apply Forall_app. split; assumption.
Qed.

Lemma main_controller_sound : sound main_controller.
Proof.
  apply (sound_construct main_items main_renderer main_config main_controller []).
  - split; apply in_range_small; cbn; lia.
  - unfold vector_ok. rewrite modulus_value. cbn. lia.
  - reflexivity.
Qed.

Lemma main_construct :
  Inventory.construct main_items main_renderer main_config
  = (inr (Inventory.MkLCDInventoryController main_controller), []).
Proof. reflexivity. Qed.

(** X21. Whatever keys are typed, [main] constructs its controller,
    renders once and runs its loop without any exception or undefined
    behaviour; every frame it pushes has 2 lines of exactly 16 characters,
    and it pushes at least the initial frame and at most one more per key. *)
Theorem main_never_fails (keys : keyboard) :
  exists frames,
    main keys = (inr tt, frames)
    /\ Forall (well_shaped 2 16) frames
    /\ (1 <= length frames <= 1 + length keys)%nat.
Proof.
  unfold main. rewrite main_construct. cbn iota zeta.
  destruct (main_loop_runs (length keys) keys main_controller
              main_controller_sound) as (c' & out & Hrun & Hlen & Hshape);
    [discriminate|].
  unfold bind.
  change (Inventory.render (Inventory.MkLCDInventoryController main_controller))
    with (wrapped (render main_controller)).
  rewrite (render_eq main_controller) by reflexivity. cbn [wrapped].
  rewrite Hrun. exists ([frame main_controller] ++ out). cbn [app].
  split; [reflexivity|]. split.
  - constructor; [|exact Hshape].
    apply (sound_frame_well_shaped main_controller main_controller_sound).
  - cbn [length]. lia.
Qed.

End MainLoop.

(** * The console renderer *)

Lemma unlines_app a b : unlines (a ++ b) = unlines a +:+ unlines b.
Proof.
  induction a as [|r a IH]; [reflexivity|].
  cbn [app unlines]. rewrite IH, !append_assoc. reflexivity.
Qed.

Lemma print_lines_unlines lines :
  print_lines lines = unlines (map (fun line => "|" +:+ line +:+ "|") lines).
Proof.
  induction lines as [|line lines IH]; [reflexivity|].
  cbn [print_lines map unlines]. rewrite IH, !append_assoc. reflexivity.
Qed.

Lemma size_border columns : 0 <= columns -> std_string.size (border columns) = columns + 2.
Proof.
  intros Hc. unfold border. rewrite !size_append, size_fill.
  change (std_string.size "+") with 1. lia.
Qed.

(** X22. Given a frame of [rows] lines of exactly [columns] characters,
    ConsoleRenderer::render writes the clear-screen sequence and then a
    rectangular box: [rows + 2] rows of text, each of exactly
    [columns + 2] characters and each ended by a line feed, the first and
    the last being the border and each one in between a line of the frame
    between two bars. *)
Theorem console_box_is_rectangular (call : RenderCall) (rows columns : Z) :
  0 <= columns ->
  well_shaped rows columns call ->
  exists box,
    ConsoleRenderer_render (rendered_lines call) (rendered_columns call)
    = ConsoleRenderer_clear +:+ unlines box
    /\ Z.of_nat (length box) = rows + 2
    /\ Forall (fun row => std_string.size row = columns + 2) box
    /\ box = [border columns]
             ++ map (fun line => "|" +:+ line +:+ "|") (rendered_lines call)
             ++ [border columns].
Proof.
  intros Hc (Hrows & Hcols & Hwidth). rewrite Hcols.
  eexists. split; [|split; [|split; [|reflexivity]]].
  - unfold ConsoleRenderer_render. rewrite print_lines_unlines.
    rewrite !unlines_app. cbn [unlines]. rewrite !append_assoc, !append_nil_r.
    reflexivity.
  - rewrite !length_app, length_map. cbn [length]. lia.
  - apply Forall_app. split; [|apply Forall_app; split].
    + constructor; [now apply size_border | constructor].
    + apply Forall_map. eapply Forall_impl; [exact Hwidth|].
      intros line Hline. cbn. rewrite !size_append, Hline.
      change (std_string.size "|") with 1. lia.
    + constructor; [now apply size_border | constructor].
Qed.

(** * The earlier controller, without scrolling *)

Section LegacyFacts.

Context {TKey TValue : Type} `{!Streamable TKey, !Streamable TValue}.
Context {KeyWidth ValueWidth : Z}.

Local Abbreviation Controller :=
  (Legacy.LCDDisplayController TKey TValue KeyWidth ValueWidth).
Implicit Type this : Controller.

Ltac legacy_fields :=
  cbn [Legacy.config Legacy.items Legacy.renderer Legacy.navigatorRow
       Legacy.isSelected Legacy.set_navigatorRow Legacy.set_isSelected
       Legacy.set_items Legacy.items_size] in *.

Ltac legacy_run :=
  unfold Legacy.perform, Legacy.navigateUp, Legacy.navigateDown,
    Legacy.selectItem, Legacy.deselectItem, Legacy.setCurrentValue,
    Legacy.getCurrentValue, Legacy.getCurrentKey, Legacy.validateRowIndex,
    Legacy.render, IRenderer_render,
    bind, get, modify, ret, throw, undefined, emit, state, result, pushed.

Lemma legacy_call (c : Legacy.Call) this :
  legacy_sound this ->
  legacy_sound (state (Legacy.perform c this))
  /\ result (Legacy.perform c this) = inr tt
  /\ Legacy.config (state (Legacy.perform c this)) = Legacy.config this
  /\ length (Legacy.items (state (Legacy.perform c this)))
     = length (Legacy.items this).
Proof.
  intros [Hrows Hsize Hrend Hrow Hrec].
  destruct this as [cfg its r nav flag]. unfold Legacy.items_size in *.
  legacy_fields. rewrite modulus_value in *.
  destruct r as [|address]; [discriminate|].
  assert (Hlook : exists item, its !! Z.to_nat nav = Some item).
  { apply lookup_lt_is_Some. lia. }
  destruct Hlook as [item Hitem].
  destruct c; legacy_run; unfold Legacy.items_size in *; legacy_fields.
  - repeat split; legacy_fields; unfold Legacy.items_size; cbn;
      rewrite ?modulus_value; try assumption; lia.
  - destruct (Z.gtb_spec nav 0); cbn; repeat split; legacy_fields;
      unfold Legacy.items_size; cbn; rewrite ?modulus_value; unwrap;
      try assumption; try reflexivity; lia.
  - unwrap.
    match goal with
    | |- context [if ?b && ?c then _ else _] => destruct b eqn:E1; destruct c eqn:E2
    end; try apply Z.ltb_lt in E1; try apply Z.ltb_lt in E2; cbn;
      repeat split; legacy_fields; unfold Legacy.items_size; cbn;
      rewrite ?modulus_value; unwrap; try assumption; try reflexivity; lia.
  - cbn. repeat split; legacy_fields; unfold Legacy.items_size; cbn;
      rewrite ?modulus_value; try assumption; lia.
  - cbn. repeat split; legacy_fields; unfold Legacy.items_size; cbn;
      rewrite ?modulus_value; try assumption; lia.
  - destruct (Z.geb_spec nav (Z.of_nat (length its))); [lia|]. cbn.
    repeat split; legacy_fields; unfold Legacy.items_size; cbn;
      rewrite ?length_alter, ?modulus_value; try assumption; try reflexivity; lia.
  - destruct (Z.geb_spec nav (Z.of_nat (length its))); [lia|]. cbn.
    rewrite Hitem. cbn.
    repeat split; legacy_fields; unfold Legacy.items_size; cbn;
      rewrite ?modulus_value; try assumption; lia.
  - destruct (Z.geb_spec nav (Z.of_nat (length its))); [lia|]. cbn.
    rewrite Hitem. cbn.
    repeat split; legacy_fields; unfold Legacy.items_size; cbn;
      rewrite ?modulus_value; try assumption; lia.
Qed.

Lemma legacy_construct_inr items_arg renderer_arg config_arg this out :
  Legacy.construct items_arg renderer_arg config_arg = (inr this, out) ->
  this = Legacy.MkLCDDisplayController config_arg items_arg renderer_arg 0 false
  /\ is_null renderer_arg = false.
Proof.
  unfold Legacy.construct, Legacy.constructor_body, throw, ret.
  destruct (is_null renderer_arg); [discriminate|].
  destruct (columns config_arg <? requiredWidth); [discriminate|].
  intros [= <- <-]. auto.
Qed.

Lemma legacy_after (calls : list Legacy.Call) this :
  legacy_sound this ->
  legacy_sound (Legacy.after calls this)
  /\ Legacy.config (Legacy.after calls this) = Legacy.config this
  /\ length (Legacy.items (Legacy.after calls this))
     = length (Legacy.items this).
Proof.
  revert this. induction calls as [|c calls IH]; intros this H.
  - cbn. auto.
  - cbn [Legacy.after].
    destruct (legacy_call c this H) as (H' & _ & Hcfg & Hlen).
    destruct (IH _ H') as (H'' & Hcfg' & Hlen').
    split; [exact H''|]. split; congruence.
Qed.

(** X24. The earlier controller, over a non-empty store shown on at
    least one row: after any sequence of calls on a freshly constructed
    controller the cursor row is below both [rows] and the number of
    records (so a record of index [rows] or more can never be selected:
    there is no scrolling), and every further call completes without
    exception or undefined behaviour. *)
Theorem legacy_cursor_stays_on_a_shown_record
    (items_arg : list (DisplayItem TKey TValue KeyWidth ValueWidth))
    (renderer_arg : shared_ptr_IRenderer) (config_arg : DisplayConfig)
    this (calls : list Legacy.Call) (c : Legacy.Call) :
  DisplayConfig_ok config_arg ->
  vector_ok items_arg ->
  1 <= rows config_arg ->
  items_arg <> [] ->
  Legacy.construct items_arg renderer_arg config_arg = (inr this, []) ->
  let this' := Legacy.after calls this in
  0 <= Legacy.getNavigatorRow this' < rows config_arg
  /\ Legacy.getNavigatorRow this' < Z.of_nat (length items_arg)
  /\ result (Legacy.perform c this') = inr tt.
Proof.
  intros [Hrows _] Hvec Hpos Hne Hnew this'. subst this'.
  apply legacy_construct_inr in Hnew as [-> Hr].
  unfold vector_ok, size_t.in_range in *.
  assert (H : legacy_sound
                (Legacy.MkLCDDisplayController config_arg items_arg renderer_arg
                   0 false)).
  { constructor; unfold Legacy.items_size; cbn; try assumption; try lia.
    destruct items_arg; [congruence|cbn; lia]. }
  destruct (legacy_after calls _ H) as (H' & Hcfg & Hlen). cbn in Hcfg, Hlen.
  destruct H' as [_ _ _ Hrow Hrec]. unfold Legacy.items_size in Hrec.
  rewrite Hcfg in Hrow. rewrite Hlen in Hrec.
  unfold Legacy.getNavigatorRow. split; [exact Hrow|]. split; [exact Hrec|].
  destruct (legacy_after calls _ H) as (H' & _).
  apply (legacy_call c _ H').
Qed.

Lemma legacy_walk_on_empty (n : nat) this :
  Legacy.items this = [] ->
  1 <= rows (Legacy.config this) < size_t.modulus ->
  0 <= Legacy.navigatorRow this < rows (Legacy.config this) ->
  let this' := Legacy.navigateDown_times n this in
  Legacy.navigatorRow this'
  = Z.min (Legacy.navigatorRow this + Z.of_nat n) (rows (Legacy.config this) - 1)
  /\ Legacy.items this' = [] /\ Legacy.config this' = Legacy.config this.
Proof.
  revert this. induction n as [|n IH]; intros this Hnil Hrows Hrow.
  - cbn. repeat split; try assumption. lia.
  - cbn [Legacy.navigateDown_times].
    assert (Hstep :
      let s := state (Legacy.navigateDown this) in
      Legacy.items s = [] /\ Legacy.config s = Legacy.config this
      /\ Legacy.navigatorRow s
         = Z.min (Legacy.navigatorRow this + 1) (rows (Legacy.config this) - 1)).
    { destruct this as [cfg its r nav flag]. legacy_fields. subst its.
      rewrite modulus_value in *. legacy_run; unfold Legacy.items_size in *;
        legacy_fields. cbn [length].
      change (Z.of_nat 0 -! 1) with 18446744073709551615. unwrap.
      destruct (Z.ltb_spec nav (rows cfg - 1));
        destruct (Z.ltb_spec nav 18446744073709551615); try lia;
        cbn; destruct r; cbn; repeat split; unwrap; lia. }
    destruct Hstep as (Hnil' & Hcfg' & Hnav').
    destruct (IH (state (Legacy.navigateDown this))) as (IHn & IHi & IHc);
      [exact Hnil' | rewrite Hcfg'; exact Hrows | rewrite Hcfg', Hnav'; lia |].
    cbn zeta in *. rewrite IHn, IHi, IHc, Hcfg', Hnav'.
    repeat split; lia.
Qed.

(** X25. The earlier controller over an empty store: its navigateDown
    compares the cursor row with [items.size() - 1], which wraps around
    to the largest [size_t], so the cursor does move although there is no
    record. After [n] calls on a freshly constructed controller the cursor
    is on row [min(n, rows - 1)], and getCurrentValue throws the
    out-of-range error there. *)
Theorem legacy_cursor_walks_over_an_empty_store
    (renderer_arg : shared_ptr_IRenderer) (config_arg : DisplayConfig)
    this (n : nat) :
  DisplayConfig_ok config_arg ->
  1 <= rows config_arg ->
  Legacy.construct [] renderer_arg config_arg = (inr this, []) ->
  let this' := Legacy.navigateDown_times n this in
  Legacy.getNavigatorRow this' = Z.min (Z.of_nat n) (rows config_arg - 1)
  /\ Legacy.getCurrentValue this'
     = (inl (Throw (out_of_range "Row index out of range")), this', []).
Proof.
  intros [Hrows _] Hpos Hnew this'. subst this'.
  apply legacy_construct_inr in Hnew as [-> Hr].
  unfold size_t.in_range in Hrows.
  set (this0 := Legacy.MkLCDDisplayController config_arg [] renderer_arg 0 false
                : Controller).
  destruct (legacy_walk_on_empty n this0) as (Hnav & Hnil & Hcfg);
    cbn; try reflexivity; try lia.
  cbn in Hnav, Hcfg. unfold Legacy.getNavigatorRow. split; [exact Hnav|].
  unfold Legacy.getCurrentValue, Legacy.validateRowIndex, bind, get, throw.
  unfold Legacy.items_size. rewrite Hnil. cbn [length].
  destruct (Z.geb_spec (Legacy.navigatorRow (Legacy.navigateDown_times n this0))
              (Z.of_nat 0)); [reflexivity|].
  rewrite Hnav in *. lia.
Qed.

End LegacyFacts.

(** * The further properties at the test fixtures *)

Lemma walked_controller_reachable : reachable walked_controller.
Proof.
  apply navigate_times_reachable, test_controller_reachable. lia.
Qed.

Lemma walked_controller_value :
  walked_controller
  = MkLCDDisplayController test_config (createItems 5) mockRenderer 3 2 false.
Proof. reflexivity. Qed.

(** X1 below the top (a move that scrolls nothing) and at the top. *)
Lemma navigateUp_spec_witness :
  navigateUp walked_controller
  = (inr true,
     MkLCDDisplayController test_config (createItems 5) mockRenderer 2 2 false,
     [MkRenderCall [">Item2     :2   "; " Item3     :3   "] 16])
  /\ navigateUp (test_controller 5) = (inr false, test_controller 5, []).
Proof.
  split.
  - destruct (navigateUp_spec walked_controller walked_controller_reachable)
      as [Hmove _].
    rewrite Hmove; [reflexivity | vm_compute; reflexivity].
  - assert (Hr : reachable (test_controller 5))
      by (apply test_controller_reachable; lia).
    destruct (navigateUp_spec (test_controller 5) Hr) as [_ Htop].
    apply Htop. cbn. lia.
Defined.

(** X2 at the three-record controller. *)
Lemma render_pushes_one_well_shaped_frame_witness :
  exists call,
    render (test_controller 3) = (inr tt, test_controller 3, [call])
    /\ well_shaped 2 16 call.
Proof.
  apply (render_pushes_one_well_shaped_frame (test_controller 3)).
  apply test_controller_reachable. lia.
Defined.

(** X3 after three navigateDown calls: the cursor is on row 1. *)
Lemma cursor_marks_the_selected_row_witness :
  0 <= 3 - 2 < 2
  /\ forall (i : nat) (line : string),
       frame_lines walked_controller !! i = Some line ->
       exists rest,
         line = String (if Z.of_nat i =? 3 - 2 then ">"%char else " "%char) rest.
Proof.
  apply (cursor_marks_the_selected_row walked_controller).
  - exact walked_controller_reachable.
  - vm_compute. discriminate.
  - vm_compute. discriminate.
Defined.

(** X4 after three navigateDown calls: row 0 shows the record of index 2. *)
Lemma row_shows_the_record_at_window_offset_witness :
  " Item2     :2   "
  = String " "
      (getFormattedKey (MkDisplayItem 10 4 "Item2" (Int 2))
       +:+ String ":"
             (getFormattedValue (MkDisplayItem 10 4 "Item2" (Int 2))
              +:+ std_string.fill (16 - (1 + 10 + 1 + 4)) " ")).
Proof.
  assert (H10 : 0 <= 10) by lia. assert (H4 : 0 <= 4) by lia.
  assert (Hfit : 1 + 10 + 1 + 4 < size_t.modulus) by reflexivity.
  apply (row_shows_the_record_at_window_offset walked_controller 0
           " Item2     :2   " (MkDisplayItem 10 4 "Item2" (Int 2))
           walked_controller_reachable H10 H4 Hfit).
  - reflexivity.
  - reflexivity.
Defined.

(** X5 at the single-record controller: row 1 is blank. *)
Lemma rows_past_the_store_are_blank_witness :
  "                " = std_string.fill 16 " ".
Proof.
  apply (rows_past_the_store_are_blank (test_controller 1) 1 "                ").
  - apply test_controller_reachable. lia.
  - discriminate.
  - reflexivity.
  - vm_compute. discriminate.
Defined.

(** X6 at the two-record controller after one navigateDown. *)
Lemma no_scrolling_when_everything_fits_witness :
  getWindowStartIndex (navigate_times MoveDown 1 (test_controller 2)) = 0
  /\ getNavigatorRow (navigate_times MoveDown 1 (test_controller 2))
     = getSelectedItemIndex (navigate_times MoveDown 1 (test_controller 2)).
Proof.
  apply no_scrolling_when_everything_fits.
  - apply navigate_times_reachable, test_controller_reachable. lia.
  - reflexivity.
Defined.

(** X7 after three navigateDown calls. *)
Lemma getNavigatorRow_in_range_witness :
  getNavigatorRow walked_controller
  = getSelectedItemIndex walked_controller - getWindowStartIndex walked_controller
  /\ 0 <= getNavigatorRow walked_controller <= 2 - 1.
Proof.
  apply (getNavigatorRow_in_range walked_controller walked_controller_reachable).
  vm_compute. discriminate.
Defined.

(** X9 at the three-record controller. *)
Lemma calls_complete_on_a_non_empty_store_witness :
  result (perform call_getCurrentValue (test_controller 3)) = inr tt
  /\ result (perform (call_setCurrentValue (Int 7)) (test_controller 3)) = inr tt.
Proof.
  assert (Hr : reachable (test_controller 3))
    by (apply test_controller_reachable; lia).
  split; apply calls_complete_on_a_non_empty_store;
    try exact Hr; discriminate.
Defined.

(** X10 at the two-record controller. *)
Lemma select_and_deselect_are_idempotent_witness :
  result (selectItem (test_controller 2)) = inr true
  /\ selectItem (state (selectItem (test_controller 2)))
     = (inr false, state (selectItem (test_controller 2)), [])
  /\ state (deselectItem (state (selectItem (test_controller 2))))
     = test_controller 2.
Proof.
  destruct (select_and_deselect_are_idempotent (test_controller 2) eq_refl)
    as (Hres & _ & _ & _ & Hagain & _ & Hundo).
  split; [exact Hres|]. split; [exact Hagain | apply Hundo; reflexivity].
Defined.

(** X11 at the three-record controller: SetCurrentValueUpdatesSelectedItem. *)
Lemma setCurrentValue_then_get_witness :
  result ((setCurrentValue (Int 999) ;; getCurrentValue) (test_controller 3))
  = inr (Int 999)
  /\ result ((setCurrentValue (Int 999) ;; getCurrentKey) (test_controller 3))
     = inr "Item0".
Proof.
  destruct (setCurrentValue_then_get (test_controller 3)
              (MkDisplayItem 10 4 "Item0" (Int 0)) (Int 999)
              eq_refl (Z.le_refl 0) eq_refl) as (Hv & Hk & _).
  split; [exact Hv | exact Hk].
Defined.

(** X12 after three navigateDown calls, in both directions. *)
Lemma navigation_round_trip_witness :
  selectedItemIndex (state (navigateUp (state (navigateDown walked_controller)))) = 3
  /\ selectedItemIndex (state (navigateDown (state (navigateUp walked_controller)))) = 3.
Proof.
  destruct (navigation_round_trip walked_controller walked_controller_reachable)
    as [Hdown Hup].
  split.
  - apply Hdown. split; [discriminate | vm_compute; reflexivity].
  - apply Hup. vm_compute. reflexivity.
Defined.

(** X13 after three navigateDown calls: one more advances the window by
    one line. *)
Lemma window_scrolls_one_line_at_a_time_witness :
  - 1 <= selectedItemIndex (state (navigateDown walked_controller)) - 3 <= 1
  /\ (windowStartIndex (state (navigateDown walked_controller)) = 2
      \/ (MoveDown = MoveDown /\ 3 = 2 + 2 - 1
          /\ windowStartIndex (state (navigateDown walked_controller)) = 2 + 1)
      \/ (MoveDown = MoveUp /\ 3 = 2
          /\ windowStartIndex (state (navigateDown walked_controller)) = 2 - 1)).
Proof.
  apply (window_scrolls_one_line_at_a_time MoveDown walked_controller
           walked_controller_reachable).
  vm_compute. discriminate.
Defined.

(** X14 from the initial state of the five-record controller. *)
Lemma walking_down_witness :
  selectedItemIndex (navigate_times MoveDown 7 (test_controller 5))
  = Z.min (0 + 7) (Z.max (5 - 1) 0)
  /\ windowStartIndex (navigate_times MoveDown 7 (test_controller 5))
     = Z.max 0 (selectedItemIndex (navigate_times MoveDown 7 (test_controller 5))
                - 2 + 1)
  /\ items (navigate_times MoveDown 7 (test_controller 5)) = createItems 5.
Proof.
  apply (walking_down 7 (test_controller 5)).
  - apply test_controller_reachable. lia.
  - vm_compute. discriminate.
Defined.

(** X23 from the state after three navigateDown calls. *)
Lemma walking_up_witness :
  selectedItemIndex (navigate_times MoveUp 2 walked_controller) = Z.max 0 (3 - 2)
  /\ windowStartIndex (navigate_times MoveUp 2 walked_controller)
     = Z.min 2 (selectedItemIndex (navigate_times MoveUp 2 walked_controller))
  /\ items (navigate_times MoveUp 2 walked_controller) = createItems 5
  /\ (3 <= 2 ->
      selectedItemIndex (navigate_times MoveUp 2 walked_controller) = 0
      /\ windowStartIndex (navigate_times MoveUp 2 walked_controller) = 0).
Proof.
  apply (walking_up 2 walked_controller walked_controller_reachable).
  vm_compute. discriminate.
Defined.

(** X15 at the largest count. *)
Lemma uint8_values_are_never_truncated_witness :
  1 <= std_string.size (toString (U8 255)) <= 3
  /\ std_string.starts_with "255"
       (getFormattedValue (MkDisplayItem 11 3 "Sword" (U8 255) : InventoryDisplayItem)).
Proof.
  destruct uint8_values_are_never_truncated as (Hsize & Hfmt & _).
  assert (Hok : uint8_ok (U8 255)) by (unfold uint8_ok; cbn; lia).
  split; [exact (Hsize _ Hok)|].
  assert (H3 : size_t.in_range 3) by (apply in_range_small; lia).
  destruct (Hfmt string _ 11 3 (MkDisplayItem 11 3 "Sword" (U8 255)) Hok H3
              (Z.le_refl 3)) as [Hstart _].
  exact Hstart.
Defined.

(** X16 at the record holding 255. *)
Lemma increment_and_decrement_undo_each_other_witness :
  state ((Inventory.incrementValue ;; Inventory.decrementValue)
           (Inventory.MkLCDInventoryController (inventory_controller 0)))
  = Inventory.MkLCDInventoryController (inventory_controller 0)
  /\ state ((Inventory.decrementValue ;; Inventory.incrementValue)
           (Inventory.MkLCDInventoryController (inventory_controller 0)))
  = Inventory.MkLCDInventoryController (inventory_controller 0).
Proof.
  assert (Hok : uint8_ok (U8 255)) by (unfold uint8_ok; cbn; lia).
  destruct (increment_and_decrement_undo_each_other (inventory_controller 0)
              (MkDisplayItem 11 3 "Sword" (U8 255))
              eq_refl (Z.le_refl 0) eq_refl Hok)
    as (_ & Hup & _ & _ & _ & Hdown & _).
  split; [exact Hup | exact Hdown].
Defined.

(** X17 at the inventory without records. *)
Lemma increment_on_nothing_is_an_index_error_witness :
  Inventory.incrementValue (Inventory.MkLCDInventoryController empty_inventory_controller)
  = (inl index_error,
     Inventory.MkLCDInventoryController empty_inventory_controller, [])
  /\ Inventory.decrementValue (Inventory.MkLCDInventoryController empty_inventory_controller)
  = (inl index_error,
     Inventory.MkLCDInventoryController empty_inventory_controller, []).
Proof.
  apply (increment_on_nothing_is_an_index_error empty_inventory_controller).
  - vm_compute. discriminate.
  - left. reflexivity.
Defined.

(** X18 at the three-record controller, for navigateDown. *)
Lemma every_call_pushes_at_most_one_frame_witness :
  (pushed (perform call_navigateDown (test_controller 3)) = []
   \/ pushed (perform call_navigateDown (test_controller 3))
      = [frame (state (perform call_navigateDown (test_controller 3)))])
  /\ Forall (well_shaped 2 16)
       (pushed (perform call_navigateDown (test_controller 3))).
Proof.
  apply (every_call_pushes_at_most_one_frame call_navigateDown (test_controller 3)).
  apply test_controller_reachable. lia.
Defined.

(** X20 at the key announced as Exit. *)
Lemma other_keys_do_nothing_witness :
  dispatch (charToCommand "x") (Inventory.MkLCDInventoryController main_controller)
  = (inr tt, Inventory.MkLCDInventoryController main_controller, []).
Proof.
  apply (other_keys_do_nothing "x"
           (Inventory.MkLCDInventoryController main_controller)).
  reflexivity.
Defined.

(** X22 at the first frame of the two-record controller. *)
Lemma console_box_is_rectangular_witness :
  exists box,
    ConsoleRenderer_render [">Item0     :0   "; " Item1     :1   "] 16
    = ConsoleRenderer_clear +:+ unlines box
    /\ Z.of_nat (length box) = 2 + 2
    /\ Forall (fun row => std_string.size row = 16 + 2) box
    /\ box = [border 16]
             ++ map (fun line => "|" +:+ line +:+ "|")
                  [">Item0     :0   "; " Item1     :1   "]
             ++ [border 16].
Proof.
  assert (H16 : 0 <= 16) by lia.
  apply (console_box_is_rectangular
           (MkRenderCall [">Item0     :0   "; " Item1     :1   "] 16) 2 16 H16).
  split; [reflexivity|]. split; [reflexivity|].
  repeat constructor.
Defined.

(** X24 at the five test records, after three navigateDown calls of the
    earlier controller: the cursor is still on row 1. *)
Lemma legacy_cursor_stays_on_a_shown_record_witness :
  let this' :=
    Legacy.after [Legacy.call_navigateDown; Legacy.call_navigateDown;
                  Legacy.call_navigateDown] legacy_controller in
  0 <= Legacy.getNavigatorRow this' < 2
  /\ Legacy.getNavigatorRow this' < Z.of_nat (length (createItems 5))
  /\ result (Legacy.perform Legacy.call_getCurrentValue this') = inr tt.
Proof.
  apply (legacy_cursor_stays_on_a_shown_record
           (createItems 5) mockRenderer test_config legacy_controller).
  - exact test_config_ok.
  - apply createItems_ok. lia.
  - vm_compute. discriminate.
  - discriminate.
  - reflexivity.
Defined.

(** X25 on a two-row display: the cursor of the earlier controller goes
    to row 1 of an empty store. *)
Lemma legacy_cursor_walks_over_an_empty_store_witness :
  let this' := Legacy.navigateDown_times 3 legacy_empty_controller in
  Legacy.getNavigatorRow this' = Z.min 3 (2 - 1)
  /\ Legacy.getCurrentValue this'
     = (inl (Throw (out_of_range "Row index out of range")), this', []).
Proof.
  apply (legacy_cursor_walks_over_an_empty_store
           mockRenderer test_config legacy_empty_controller 3).
  - exact test_config_ok.
  - vm_compute. discriminate.
  - reflexivity.
Defined.
